(** * RankFM: the modelling class of [rankfm/rankfm.py]

    A shallow embedding of the Python class [RankFM] (the wrapper around the
    numba training and scoring engine) together with the properties of its
    life cycle: construction, fresh and resumed fitting, prediction and
    recommendation under the two cold-start policies, and the two
    similarity queries.

    Python objects are modelled as follows.
    - [self] is a record of optional attributes ([None] is [None]); a method
      is a computation in a state-and-exception monad over the interpreter
      state, so that an exception keeps every assignment made before it.
    - User and item identifiers are integers.  A NaN cell of a pandas column
      (the result of a failed identifier lookup) is [None].
    - [float32] and [float64] values are [spec_float]s of the matching
      precision; the index positions handed to the engine are cast to
      [float32] as the source casts them.
    - The numba engine ([rankfm.numba_methods]) and numpy's normal sampler are
      parameters of the development (class [Engine]); every call made to the
      engine is recorded with its arguments.
    - The similarity queries read [self] and print; the numpy products, sums
      and the pandas sort they call are parameters as well (class
      [Numpy]). *)

From Stdlib Require Import ZArith Lia SpecFloat.
From stdpp Require Import base option list sorting gmap strings.

Local Open Scope Z_scope.

(** ** Python values and exceptions *)

(** The dynamic values a caller can pass for a hyperparameter or a policy
    name.  A Python [bool] is an [int] ([True] is [PyInt 1]). *)
Inductive pyval :=
  | PyNone
  | PyInt (n : Z)
  | PyFloat (x : spec_float)
  | PyStr (s : string).

Inductive exn := AssertionError | KeyError | ValueError | TypeError.

(** What a method hands back: nothing ([None]) or the object itself. *)
Inductive retval := RetNone | RetSelf.

Definition isinstance_int (v : pyval) : bool :=
  match v with PyInt _ => true | _ => false end.
Definition isinstance_float (v : pyval) : bool :=
  match v with PyFloat _ => true | _ => false end.
Definition isinstance_str (v : pyval) : bool :=
  match v with PyStr _ => true | _ => false end.

(** [v == s] for a string literal [s]. *)
Definition py_eq_str (v : pyval) (s : string) : bool :=
  match v with PyStr t => bool_decide (t = s) | _ => false end.

(** ** Floating point *)

Definition f0 : spec_float := S754_zero false.

Definition np_isnan (x : spec_float) : bool :=
  match x with S754_nan => true | _ => false end.

(** [x >= 0.0] and [x > 0.0] on Python floats (false on NaN). *)
Definition float_ge0 (x : spec_float) : bool := SFleb f0 x.
Definition float_gt0 (x : spec_float) : bool := SFltb f0 x.

(** [.astype(np.float32)]: round to nearest even in binary32. *)
Definition astype_float32 (x : spec_float) : spec_float :=
  match x with
  | S754_finite s m e => binary_normalize 24 128 (if s then Z.neg m else Z.pos m) e s
  | _ => x
  end.

(** binary32 arithmetic of the scorer. *)
Definition f32_add : spec_float → spec_float → spec_float := SFadd 24 128.
Definition f32_mul : spec_float → spec_float → spec_float := SFmul 24 128.

(** A two-dimensional array: [shape = (length nd_rows, nd_cols)]. *)
Record ndarray2 := Ndarray2 { nd_cols : nat; nd_rows : list (list spec_float) }.

Definition np_zeros (n : nat) : list spec_float := replicate n f0.
Definition np_zeros2 (n m : nat) : ndarray2 := Ndarray2 m (replicate n (np_zeros m)).
Definition vec_astype_float32 (v : list spec_float) : list spec_float :=
  astype_float32 <$> v.
Definition nd_astype_float32 (a : ndarray2) : ndarray2 :=
  Ndarray2 (nd_cols a) (vec_astype_float32 <$> nd_rows a).

(** ** numpy and pandas on integer columns *)

(** [np.int32] wrap-around. *)
Definition wrap32 (z : Z) : Z := (z + 2 ^ 31) `mod` 2 ^ 32 - 2 ^ 31.

Definition np_sort (l : list Z) : list Z := merge_sort Z.le l.
Definition np_unique (l : list Z) : list Z := merge_sort Z.le (remove_dups l).
Definition np_arange (n : nat) : list Z := Z.of_nat <$> seq 0 n.

(** [pd.Series(data=s.index, index=s.values)] for a series [s] with a
    [RangeIndex]: the reverse mapping from identifier to position. *)
Definition reverse_index (ids : list Z) : gmap Z Z :=
  list_to_map (zip ids (np_arange (length ids))).

(** [column.map(mapping)]: a key absent from the mapping gives NaN. *)
Definition series_map (mapping : gmap Z Z) (col : list Z) : list (option Z) :=
  (λ k, mapping !! k) <$> col.

(** [column.astype(np.int32)] on a mapped column: pandas refuses to cast a
    column holding NaN to an integer type ([ValueError]: cannot convert
    non-finite values to integer). *)
Definition astype_int32 (col : list (option Z)) : exn + list Z :=
  match mapM id col with
  | Some vs => inr (wrap32 <$> vs)
  | None => inl ValueError
  end.

(** A two-column frame; [dropna()] keeps the rows without a NaN cell. *)
Definition frame := list (option Z * option Z).

Definition row_value (r : option Z * option Z) : option (Z * Z) :=
  match r with (Some u, Some i) => Some (u, i) | _ => None end.
Definition dropna_astype_int32 (df : frame) : list (Z * Z) :=
  (λ r, (wrap32 r.1, wrap32 r.2)) <$> omap row_value df.

(** [sort_values(['user_idx', 'item_idx'])]. *)
Definition lex_le (a b : Z * Z) : Prop := a.1 < b.1 ∨ (a.1 = b.1 ∧ a.2 ≤ b.2).
#[global] Instance lex_le_dec a b : Decision (lex_le a b).
Proof. unfold lex_le. apply _. Defined.
Definition sort_values (rows : list (Z * Z)) : list (Z * Z) := merge_sort lex_le rows.

(** [groupby('user_idx')['item_idx'].apply(np.array).to_dict()]: one entry
    per distinct user, keys ascending, each holding that user's items in the
    order of the rows. *)
Definition items_of (u : Z) (rows : list (Z * Z)) : list Z :=
  snd <$> filter (λ r, r.1 = u) rows.
Definition groupby_user (rows : list (Z * Z)) : list (Z * list Z) :=
  (λ u, (u, items_of u rows)) <$> np_unique (rows.*1).

(** A table of side features: the first column holds the identifier, the
    other [ft_cols] columns the feature values. *)
Record feature_table := FeatureTable { ft_cols : nat; ft_rows : list (Z * list spec_float) }.

(** [np.array_equal(sorted(index.values), idx)]: a NaN label never compares
    equal, and neither does a missing [idx]. *)
Definition array_equal_sorted (labels : list (option Z)) (idx : option (list Z)) : bool :=
  match mapM id labels, idx with
  | Some ls, Some ix => bool_decide (merge_sort Z.le ls = ix)
  | _, _ => false
  end.

(** [np.array(df.sort_index(), dtype=np.float32)] once the labels are known
    positions. *)
Definition label_le (a b : Z * list spec_float) : Prop := a.1 ≤ b.1.
#[global] Instance label_le_dec a b : Decision (label_le a b).
Proof. unfold label_le. apply _. Defined.
Definition relabel (mapping : gmap Z Z) (t : feature_table) : list (Z * list spec_float) :=
  omap (λ r, (λ k, (k, r.2)) <$> mapping !! r.1) (ft_rows t).
Definition sorted_features (mapping : gmap Z Z) (t : feature_table) : ndarray2 :=
  nd_astype_float32 (Ndarray2 (ft_cols t) (snd <$> merge_sort label_le (relabel mapping t))).

(** ** Positions as [float32] *)

(** [int64] to [float64] and to [float32], round to nearest even. *)
Definition float64_of_int (z : Z) : spec_float := binary_normalize 53 1024 z 0 false.
Definition float32_of_int (z : Z) : spec_float := binary_normalize 24 128 z 0 false.

(** A mapped column without NaN holds [int64] and is cast to [float32]
    directly; a column (or a frame) with a NaN holds [float64], and its
    numbers are cast from there. *)
Definition has_nan (col : list (option Z)) : bool := bool_decide (None ∈ col).
Definition cell_float32 (via_float64 : bool) (c : option Z) : spec_float :=
  match c with
  | None => S754_nan
  | Some z => if via_float64 then astype_float32 (float64_of_int z) else float32_of_int z
  end.

(** [series.to_numpy(dtype=np.float32)] *)
Definition series_float32 (col : list (option Z)) : list spec_float :=
  cell_float32 (has_nan col) <$> col.

(** [frame.to_numpy().astype(np.float32)] *)
Definition frame_float32 (f : frame) : list (spec_float * spec_float) :=
  let via_float64 := has_nan (f.*1) || has_nan (f.*2) in
  (λ r, (cell_float32 via_float64 r.1, cell_float32 via_float64 r.2)) <$> f.

(** ** The object state *)

Record hyperparameters := Hyper {
  factors : Z;
  regularization : spec_float;
  sigma : spec_float;
  learning_rate : spec_float;
  learning_schedule : string;
  learning_exponent : spec_float }.

(** user/item ID/INDEX arrays and the ID <--> INDEX mappings. *)
Record indexes := Indexes {
  user_id : option (list Z);
  item_id : option (list Z);
  user_idx : option (list Z);
  item_idx : option (list Z);
  index_to_user : option (list Z);
  index_to_item : option (list Z);
  user_to_index : option (gmap Z Z);
  item_to_index : option (gmap Z Z) }.

(** [self.interactions] is a pandas frame while [_init_interactions] maps
    it, and a numpy array of index pairs once it is done. *)
Inductive interactions_val :=
  | IFrame (df : frame)
  | IArray (a : list (Z * Z)).

(** user/item interactions and user/item features. *)
Record dataset := Dataset {
  interactions : option interactions_val;
  user_items_py : option (gmap Z (list Z));
  user_items_nb : option (gmap Z (list Z));
  x_uf : option ndarray2;
  x_if : option ndarray2 }.

(** The Weight Store: item and item-feature weights, and the four latent
    factor matrices. *)
Record weights := Weights {
  w_i : option (list spec_float);
  w_if : option (list spec_float);
  v_u : option ndarray2;
  v_i : option ndarray2;
  v_uf : option ndarray2;
  v_if : option ndarray2 }.

Record RankFM := Model {
  hyper : hyperparameters;
  index : indexes;
  data : dataset;
  store : weights;
  is_fit : bool }.

Definition no_indexes : indexes := Indexes None None None None None None None None.
Definition no_data : dataset := Dataset None None None None None.
Definition no_weights : weights := Weights None None None None None None.

(** Attribute assignment, one setter per attribute that a method assigns. *)
Definition with_index (f : indexes → indexes) (s : RankFM) : RankFM :=
  Model (hyper s) (f (index s)) (data s) (store s) (is_fit s).
Definition with_data (f : dataset → dataset) (s : RankFM) : RankFM :=
  Model (hyper s) (index s) (f (data s)) (store s) (is_fit s).
Definition with_store (f : weights → weights) (s : RankFM) : RankFM :=
  Model (hyper s) (index s) (data s) (f (store s)) (is_fit s).

Definition set_user_id v := with_index (λ x,
  Indexes v (item_id x) (user_idx x) (item_idx x) (index_to_user x) (index_to_item x)
          (user_to_index x) (item_to_index x)).
Definition set_item_id v := with_index (λ x,
  Indexes (user_id x) v (user_idx x) (item_idx x) (index_to_user x) (index_to_item x)
          (user_to_index x) (item_to_index x)).
Definition set_user_idx v := with_index (λ x,
  Indexes (user_id x) (item_id x) v (item_idx x) (index_to_user x) (index_to_item x)
          (user_to_index x) (item_to_index x)).
Definition set_item_idx v := with_index (λ x,
  Indexes (user_id x) (item_id x) (user_idx x) v (index_to_user x) (index_to_item x)
          (user_to_index x) (item_to_index x)).
Definition set_index_to_user v := with_index (λ x,
  Indexes (user_id x) (item_id x) (user_idx x) (item_idx x) v (index_to_item x)
          (user_to_index x) (item_to_index x)).
Definition set_index_to_item v := with_index (λ x,
  Indexes (user_id x) (item_id x) (user_idx x) (item_idx x) (index_to_user x) v
          (user_to_index x) (item_to_index x)).
Definition set_user_to_index v := with_index (λ x,
  Indexes (user_id x) (item_id x) (user_idx x) (item_idx x) (index_to_user x) (index_to_item x)
          v (item_to_index x)).
Definition set_item_to_index v := with_index (λ x,
  Indexes (user_id x) (item_id x) (user_idx x) (item_idx x) (index_to_user x) (index_to_item x)
          (user_to_index x) v).

Definition set_interactions v := with_data (λ d,
  Dataset v (user_items_py d) (user_items_nb d) (x_uf d) (x_if d)).
Definition set_user_items_py v := with_data (λ d,
  Dataset (interactions d) v (user_items_nb d) (x_uf d) (x_if d)).
Definition set_user_items_nb v := with_data (λ d,
  Dataset (interactions d) (user_items_py d) v (x_uf d) (x_if d)).
Definition set_x_uf v := with_data (λ d,
  Dataset (interactions d) (user_items_py d) (user_items_nb d) v (x_if d)).
Definition set_x_if v := with_data (λ d,
  Dataset (interactions d) (user_items_py d) (user_items_nb d) (x_uf d) v).

Definition set_w_i v := with_store (λ t, Weights v (w_if t) (v_u t) (v_i t) (v_uf t) (v_if t)).
Definition set_w_if v := with_store (λ t, Weights (w_i t) v (v_u t) (v_i t) (v_uf t) (v_if t)).
Definition set_v_u v := with_store (λ t, Weights (w_i t) (w_if t) v (v_i t) (v_uf t) (v_if t)).
Definition set_v_i v := with_store (λ t, Weights (w_i t) (w_if t) (v_u t) v (v_uf t) (v_if t)).
Definition set_v_uf v := with_store (λ t, Weights (w_i t) (w_if t) (v_u t) (v_i t) v (v_if t)).
Definition set_v_if v := with_store (λ t, Weights (w_i t) (w_if t) (v_u t) (v_i t) (v_uf t) v).
Definition set_is_fit (b : bool) (s : RankFM) : RankFM :=
  Model (hyper s) (index s) (data s) (store s) b.

(** ** The engine interface *)

(** The six weight arrays as the engine takes and returns them. *)
Record arrays := Arrays {
  a_w_i : list spec_float;
  a_w_if : list spec_float;
  a_v_u : ndarray2;
  a_v_i : ndarray2;
  a_v_uf : ndarray2;
  a_v_if : ndarray2 }.

Definition store_of (a : arrays) : weights :=
  Weights (Some (a_w_i a)) (Some (a_w_if a)) (Some (a_v_u a)) (Some (a_v_i a))
          (Some (a_v_uf a)) (Some (a_v_if a)).

Record fit_args := FitArgs {
  fa_interactions : list (Z * Z);
  fa_user_items : gmap Z (list Z);
  fa_item_idx : list Z;
  fa_regularization : spec_float;
  fa_learning_rate : spec_float;
  fa_learning_schedule : string;
  fa_learning_exponent : spec_float;
  fa_epochs : Z;
  fa_verbose : bool;
  fa_x_uf : ndarray2;
  fa_x_if : ndarray2;
  fa_weights : arrays }.

Record predict_args := PredictArgs {
  pa_pairs : list (spec_float * spec_float);
  pa_x_uf : ndarray2;
  pa_x_if : ndarray2;
  pa_weights : arrays }.

Record recommend_args := RecommendArgs {
  ra_users : list spec_float;
  ra_user_items : gmap Z (list Z);
  ra_n_items : Z;
  ra_filter_previous : bool;
  ra_x_uf : ndarray2;
  ra_x_if : ndarray2;
  ra_weights : arrays }.

Inductive call :=
  | CallFit (a : fit_args)
  | CallPredict (a : predict_args)
  | CallRecommend (a : recommend_args).

(** [rankfm.numba_methods] and [np.random.normal] over a random state
    [rng].  [_recommend_for_users] returns one row per user; a cell is an
    item index or NaN.  The four are functions: an engine call that raises
    or does not return is outside this model, and a statement that rests on
    the engine returning says so. *)
Class Engine (rng : Type) := {
  np_random_normal : spec_float → spec_float → rng → spec_float * rng;
  _fit : fit_args → rng → arrays * rng;
  _predict : predict_args → list spec_float;
  _recommend_for_users : recommend_args → list (list (option Z)) }.

(** ** Methods *)

Section rankfm.
Context {rng : Type} `{!Engine rng}.

(** The interpreter state a method runs in: the object, the random state,
    and the engine calls made so far (oldest first). *)
Record world := World {
  self : RankFM;
  np_random : rng;
  engine_calls : list call }.

(** A computation returns or raises, and leaves a state either way. *)
Definition M (A : Type) : Type := world → (exn + A) * world.

#[global] Instance M_ret : MRet M := λ A a w, (inr a, w).
#[global] Instance M_bind : MBind M := λ A B f m w,
  match m w with
  | (inr a, w') => f a w'
  | (inl e, w') => (inl e, w')
  end.

Definition raise {A} (e : exn) : M A := λ w, (inl e, w).
Definition gets {A} (f : RankFM → A) : M A := λ w, (inr (f (self w)), w).
Definition assign (f : RankFM → RankFM) : M unit :=
  λ w, (inr (), World (f (self w)) (np_random w) (engine_calls w)).
Definition lift {A} (r : exn + A) : M A := λ w, (r, w).

(** Reading an attribute that an operation needs as an array, a mapping or
    a frame: [None] there is a [TypeError]. *)
Definition attr {A} (f : RankFM → option A) : M A :=
  λ w, match f (self w) with Some a => (inr a, w) | None => (inl TypeError, w) end.

Definition py_assert (b : bool) : M unit :=
  if b then mret () else raise AssertionError.

(** Calls into the engine, recorded. *)
Definition call_fit (a : fit_args) : M arrays :=
  λ w, let '(r, g) := _fit a (np_random w) in
       (inr r, World (self w) g (engine_calls w ++ [CallFit a])).
Definition call_predict (a : predict_args) : M (list spec_float) :=
  λ w, (inr (_predict a), World (self w) (np_random w) (engine_calls w ++ [CallPredict a])).
Definition call_recommend (a : recommend_args) : M (list (list (option Z))) :=
  λ w, (inr (_recommend_for_users a),
        World (self w) (np_random w) (engine_calls w ++ [CallRecommend a])).

(** [np.random.normal(loc, scale, size=(n, m)).astype(np.float32)]. *)
Fixpoint normal_vector (loc scale : spec_float) (m : nat) (g : rng) : list spec_float * rng :=
  match m with
  | O => ([], g)
  | S m' =>
      let '(x, g1) := np_random_normal loc scale g in
      let '(xs, g2) := normal_vector loc scale m' g1 in
      (x :: xs, g2)
  end.
Fixpoint normal_rows (loc scale : spec_float) (n m : nat) (g : rng)
    : list (list spec_float) * rng :=
  match n with
  | O => ([], g)
  | S n' =>
      let '(r, g1) := normal_vector loc scale m g in
      let '(rs, g2) := normal_rows loc scale n' m g1 in
      (r :: rs, g2)
  end.
Definition random_normal (loc scale : spec_float) (n m : nat) : M ndarray2 :=
  λ w, let '(rs, g) := normal_rows loc scale n m (np_random w) in
       (inr (nd_astype_float32 (Ndarray2 m rs)), World (self w) g (engine_calls w)).

(** The arrays every engine call takes from [self]. *)
Definition current_arrays : M arrays :=
  wi ← attr (w_i ∘ store);
  wif ← attr (w_if ∘ store);
  vu ← attr (v_u ∘ store);
  vi ← attr (v_i ∘ store);
  vuf ← attr (v_uf ∘ store);
  vif ← attr (v_if ∘ store);
  mret (Arrays wi wif vu vi vuf vif).

Definition interactions_array (s : RankFM) : option (list (Z * Z)) :=
  match interactions (data s) with Some (IArray a) => Some a | _ => None end.

(** initialize/reset all [user/item/feature] indexes and model weights *)
Definition _reset_state (s : RankFM) : RankFM :=
  Model (hyper s) no_indexes no_data no_weights false.

(** The constructor: the six assertions, then the stores and the reset.  A
    failed assertion leaves no object behind. *)
Definition __init__ (factors regularization sigma learning_rate learning_schedule
                     learning_exponent : pyval) : exn + RankFM :=
  match factors, regularization, sigma, learning_rate, learning_schedule, learning_exponent with
  | PyInt f, PyFloat r, PyFloat sg, PyFloat lr, PyStr ls, PyFloat le =>
      if negb (1 <=? f) then inl AssertionError
      else if negb (float_ge0 r) then inl AssertionError
      else if negb (float_gt0 sg) then inl AssertionError
      else if negb (float_gt0 lr) then inl AssertionError
      else if negb (bool_decide (ls = "constant") || bool_decide (ls = "invscaling"))
           then inl AssertionError
      else if negb (float_gt0 le) then inl AssertionError
      else inr (_reset_state (Model (Hyper f r sg lr ls le) no_indexes no_data no_weights false))
  | _, _, _, _, _, _ => inl AssertionError
  end.

(** map new interaction data to existing internal user/item indexes *)
Definition _init_interactions (interactions : list (Z * Z)) : M unit :=
  let raw_users := interactions.*1 in
  let raw_items := interactions.*2 in
  assign (set_interactions (Some (IFrame (zip (Some <$> raw_users) (Some <$> raw_items)))));;
  u2i ← attr (user_to_index ∘ index);
  users ← lift (astype_int32 (series_map u2i raw_users));
  assign (set_interactions (Some (IFrame (zip (Some <$> users) (Some <$> raw_items)))));;
  i2i ← attr (item_to_index ∘ index);
  items ← lift (astype_int32 (series_map i2i raw_items));
  assign (set_interactions (Some (IFrame (zip (Some <$> users) (Some <$> items)))));;
  let rows := dropna_astype_int32 (zip (Some <$> users) (Some <$> items)) in
  assign (set_interactions (Some (IFrame ((λ r, (Some r.1, Some r.2)) <$> rows))));;
  assign (set_user_items_nb (Some ∅));;
  let py : gmap Z (list Z) := list_to_map (groupby_user (sort_values rows)) in
  assign (set_user_items_py (Some py));;
  assign (set_interactions (Some (IArray rows)));;
  assign (set_user_items_nb (Some (map_fold (λ user items nb, <[user := items]> nb) ∅ py))).

(** initialize the user/item features given existing internal user/item
    indexes *)
Definition _init_features (user_features item_features : option feature_table) : M unit :=
  match user_features with
  | Some t =>
      u2i ← attr (user_to_index ∘ index);
      idx ← gets (user_idx ∘ index);
      if array_equal_sorted (series_map u2i (ft_rows t).*1) idx
      then assign (set_x_uf (Some (sorted_features u2i t)))
      else raise KeyError
  | None =>
      idx ← attr (user_idx ∘ index);
      assign (set_x_uf (Some (nd_astype_float32 (np_zeros2 (length idx) 1))))
  end;;
  match item_features with
  | Some t =>
      i2i ← attr (item_to_index ∘ index);
      idx ← gets (item_idx ∘ index);
      if array_equal_sorted (series_map i2i (ft_rows t).*1) idx
      then assign (set_x_if (Some (sorted_features i2i t)))
      else raise KeyError
  | None =>
      idx ← attr (item_idx ∘ index);
      assign (set_x_if (Some (nd_astype_float32 (np_zeros2 (length idx) 1))))
  end.

(** initialize model weights given user/item and user_feature/item_feature
    indexes/shapes *)
Definition _init_weights (user_features item_features : option feature_table) : M unit :=
  iidx ← attr (item_idx ∘ index);
  assign (set_w_i (Some (vec_astype_float32 (np_zeros (length iidx)))));;
  xif ← attr (x_if ∘ data);
  assign (set_w_if (Some (vec_astype_float32 (np_zeros (nd_cols xif)))));;
  uidx ← attr (user_idx ∘ index);
  sg ← gets (sigma ∘ hyper);
  f ← gets (Z.to_nat ∘ factors ∘ hyper);
  vu ← random_normal f0 sg (length uidx) f;
  assign (set_v_u (Some vu));;
  vi ← random_normal f0 sg (length iidx) f;
  assign (set_v_i (Some vi));;
  xuf ← attr (x_uf ∘ data);
  match user_features with
  | None => assign (set_v_uf (Some (nd_astype_float32 (np_zeros2 (nd_cols xuf) f))))
  | Some _ => vuf ← random_normal f0 sg (nd_cols xuf) f; assign (set_v_uf (Some vuf))
  end;;
  match item_features with
  | None => assign (set_v_if (Some (nd_astype_float32 (np_zeros2 (nd_cols xif) f))))
  | Some _ => vif ← random_normal f0 sg (nd_cols xif) f; assign (set_v_if (Some vif))
  end.

(** index the raw interaction and user/item features data to numpy arrays *)
Definition _init_all (interactions : list (Z * Z))
    (user_features item_features : option feature_table) : M unit :=
  let users := np_sort (np_unique (interactions.*1)) in
  let items := np_sort (np_unique (interactions.*2)) in
  assign (set_user_id (Some users));;
  assign (set_item_id (Some items));;
  assign (set_index_to_user (Some users));;
  assign (set_index_to_item (Some items));;
  assign (set_user_to_index (Some (reverse_index users)));;
  assign (set_item_to_index (Some (reverse_index items)));;
  assign (set_user_idx (Some (wrap32 <$> np_arange (length users))));;
  assign (set_item_idx (Some (wrap32 <$> np_arange (length items))));;
  _init_interactions interactions;;
  _init_features user_features item_features;;
  _init_weights user_features item_features.

(** learn or update model weights using the input data and resuming from
    the current model state *)
Definition fit_partial (interactions : list (Z * Z))
    (user_features item_features : option feature_table)
    (epochs : Z) (verbose : bool) : M retval :=
  fitted ← gets is_fit;
  (if fitted : bool
   then _init_interactions interactions;; _init_features user_features item_features
   else _init_all interactions user_features item_features);;
  ints ← attr interactions_array;
  nb ← attr (user_items_nb ∘ data);
  iidx ← attr (item_idx ∘ index);
  hp ← gets hyper;
  xuf ← attr (x_uf ∘ data);
  xif ← attr (x_if ∘ data);
  ws ← current_arrays;
  updated_weights ← call_fit
    (FitArgs ints nb iidx (regularization hp) (learning_rate hp) (learning_schedule hp)
             (learning_exponent hp) epochs verbose xuf xif ws);
  assign (with_store (λ _, store_of updated_weights));;
  assign (set_is_fit true);;
  mret RetSelf.

(** clear previous model state and learn new model weights using the input
    data; the body ends without a [return]. *)
Definition fit (interactions : list (Z * Z))
    (user_features item_features : option feature_table)
    (epochs : Z) (verbose : bool) : M retval :=
  assign _reset_state;;
  fit_partial interactions user_features item_features epochs verbose;;
  mret RetNone.

(** [scores[~np.isnan(scores)]] *)
Definition drop_nan (scores : list spec_float) : list spec_float :=
  filter (λ x, np_isnan x = false) scores.

(** calculate the predicted pointwise utilities for all (user, item) pairs *)
Definition predict (pairs : list (Z * Z)) (cold_start : pyval) : M (list spec_float) :=
  fitted ← gets is_fit;
  py_assert fitted;;
  u2i ← attr (user_to_index ∘ index);
  i2i ← attr (item_to_index ∘ index);
  let pred_pairs :=
    frame_float32 (zip (series_map u2i (pairs.*1)) (series_map i2i (pairs.*2))) in
  xuf ← attr (x_uf ∘ data);
  xif ← attr (x_if ∘ data);
  ws ← current_arrays;
  scores ← call_predict (PredictArgs pred_pairs xuf xif ws);
  if py_eq_str cold_start "nan" then mret scores
  else if py_eq_str cold_start "drop" then mret (drop_nan scores)
  else raise ValueError.

(** A table of recommendations: one row per user identifier; a cell is an
    item identifier or a missing marker. *)
Definition rec_table := list (Z * list (option Z)).

(** [pd.DataFrame(rec_items, index=users)]: the rows must be as many as the
    labels. *)
Definition dataframe (rec_items : list (list (option Z))) (users : list Z)
    : exn + list (Z * list (option Z)) :=
  if bool_decide (length rec_items = length users) then inr (zip users rec_items)
  else inl ValueError.

(** [c.map(index_to_item)] on one cell: the identifier at that position,
    a missing marker for NaN and for a position outside the index. *)
Definition item_at (index_to_item : list Z) (cell : option Z) : option Z :=
  k ← cell; if bool_decide (0 ≤ k) then index_to_item !! Z.to_nat k else None.

Definition row_complete (r : Z * list (option Z)) : Prop := Forall is_Some r.2.
#[global] Instance row_complete_dec r : Decision (row_complete r).
Proof. unfold row_complete. apply _. Defined.

(** [rec_items.dropna(how='any')] *)
Definition dropna_any (t : rec_table) : rec_table := filter row_complete t.

(** calculate the topN items for each user *)
Definition recommend_for_users (users : list Z) (n_items : Z) (filter_previous : bool)
    (cold_start : pyval) : M rec_table :=
  fitted ← gets is_fit;
  py_assert fitted;;
  u2i ← attr (user_to_index ∘ index);
  let user_idx := series_float32 (series_map u2i users) in
  nb ← attr (user_items_nb ∘ data);
  xuf ← attr (x_uf ∘ data);
  xif ← attr (x_if ∘ data);
  ws ← current_arrays;
  rec_items ← call_recommend (RecommendArgs user_idx nb n_items filter_previous xuf xif ws);
  df ← lift (dataframe rec_items users);
  i2item ← attr (index_to_item ∘ index);
  let rec_items : rec_table :=
    (λ r : Z * list (option Z), (r.1, item_at i2item <$> r.2)) <$> (df : rec_table) in
  if py_eq_str cold_start "nan" then mret rec_items
  else if py_eq_str cold_start "drop" then mret (dropna_any rec_items)
  else raise ValueError.

End rankfm.

Arguments world : clear implicits.
Arguments M : clear implicits.

(** ** A reference engine

    A small engine on which the methods can be run: the random state counts
    the draws, every draw is the scale, training returns the weights it was
    given, an unknown pair scores NaN, and a recommendation row lists the
    first [n_items] item indices (NaN throughout for an unknown user). *)
Module Reference.

Definition catalog (a : recommend_args) : list (option Z) :=
  Some <$> np_arange (length (a_w_i (ra_weights a))).

Definition recommend_row (a : recommend_args) (u : spec_float) : list (option Z) :=
  if np_isnan u then replicate (Z.to_nat (ra_n_items a)) None
  else take (Z.to_nat (ra_n_items a)) (catalog a).

Definition score_pair (p : spec_float * spec_float) : spec_float :=
  if np_isnan p.1 || np_isnan p.2 then S754_nan else f0.

#[global] Instance engine : Engine nat := {|
  np_random_normal := λ _ scale g, (scale, S g);
  _fit := λ a g, (fa_weights a, g);
  _predict := λ a, score_pair <$> pa_pairs a;
  _recommend_for_users := λ a, recommend_row a <$> ra_users a |}.

(** The default hyperparameters: 10, 0.01, 0.1, 0.1, 'constant', 0.25. *)
Definition f64_0_01 : spec_float := S754_finite false 5764607523034235 (-59).
Definition f64_0_1 : spec_float := S754_finite false 7205759403792794 (-56).
Definition f64_0_25 : spec_float := S754_finite false 4503599627370496 (-54).

Definition new_model : exn + RankFM :=
  __init__ (PyInt 2) (PyFloat f64_0_01) (PyFloat f64_0_1) (PyFloat f64_0_1)
           (PyStr "constant") (PyFloat f64_0_25).

Definition start (s : RankFM) : world nat := World s O [].

(** Three users, four items. *)
Definition log1 : list (Z * Z) := [(7, 100); (7, 101); (8, 102); (9, 103)].

Definition unfit : world nat :=
  match new_model with inr s => start s | inl _ => start (Model (Hyper 0 f0 f0 f0 "" f0) no_indexes no_data no_weights false) end.

(** The state after [fit(log1)]. *)
Definition fitted : world nat := (fit log1 None None 1 false unfit).2.

(** The state after a further [fit_partial] on one known pair. *)
Definition resumed : world nat := (fit_partial [(7, 103)] None None 1 false fitted).2.

(** A user-feature table that lists user 7 only. *)
Definition short_table : feature_table := FeatureTable 1 [(7, [f0])].

(** The random source that cycles through the four item indices. *)
Definition round_robin (k : nat) : Z := Z.of_nat (k `mod` 4).

End Reference.

(** ** The scorer and the negative sampler *)

(** Modelled from the spec: the Scorer of [rankfm.numba_methods], which is
    not among the sources.  "latent_user = user_factor[u] +
    user_feature_factor^T . user_feature[u]; latent_item = item_factor[i] +
    item_feature_factor^T . item_feature[i]; score = item_bias[i] +
    dot(item_feature[i], item_feature_bias) + dot(latent_user,
    latent_item)", in binary32. *)
Definition f32_dot (a b : list spec_float) : spec_float :=
  foldl f32_add f0 (zip_with f32_mul a b).
Definition nd_row (m : ndarray2) (k : nat) : list spec_float := default [] (nd_rows m !! k).
Definition nd_column (m : ndarray2) (f : nat) : list spec_float :=
  (λ r, default f0 (r !! f)) <$> nd_rows m.
Definition transpose_dot (m : ndarray2) (x : list spec_float) : list spec_float :=
  (λ f, f32_dot (nd_column m f) x) <$> seq 0 (nd_cols m).

Definition user_feature_term (xuf : ndarray2) (ws : arrays) (u : nat) : list spec_float :=
  transpose_dot (a_v_uf ws) (nd_row xuf u).
Definition item_feature_term (xif : ndarray2) (ws : arrays) (i : nat) : list spec_float :=
  transpose_dot (a_v_if ws) (nd_row xif i).
Definition item_feature_bias_term (xif : ndarray2) (ws : arrays) (i : nat) : spec_float :=
  f32_dot (nd_row xif i) (a_w_if ws).

Definition latent_user (xuf : ndarray2) (ws : arrays) (u : nat) : list spec_float :=
  zip_with f32_add (nd_row (a_v_u ws) u) (user_feature_term xuf ws u).
Definition latent_item (xif : ndarray2) (ws : arrays) (i : nat) : list spec_float :=
  zip_with f32_add (nd_row (a_v_i ws) i) (item_feature_term xif ws i).
Definition score (xuf xif : ndarray2) (ws : arrays) (u i : nat) : spec_float :=
  f32_add (f32_add (default f0 (a_w_i ws !! i)) (item_feature_bias_term xif ws i))
          (f32_dot (latent_user xuf ws u) (latent_item xif ws i)).

(** Modelled from the spec: the Negative Sampler of [rankfm.numba_methods],
    which is not among the sources.  "sample_negative(u) -> item_index,
    drawing uniformly at random from all item indices, retried until the
    drawn index is not in the observed-set of u".  The random source is the
    sequence [draw] of the item indices it yields, [k] counts the draws
    consumed so far, and [fuel] bounds the retries; the result is the
    index drawn together with the new count. *)
Definition observed_set (user_items : gmap Z (list Z)) (u : Z) : list Z :=
  default [] (user_items !! u).

Fixpoint sample_negative (draw : nat → Z) (user_items : gmap Z (list Z)) (u : Z)
    (fuel k : nat) : option (Z * nat) :=
  match fuel with
  | O => None
  | S fuel' =>
      if bool_decide (draw k ∈ observed_set user_items u)
      then sample_negative draw user_items u fuel' (S k)
      else Some (draw k, S k)
  end.

(** ** Predicates of the statements *)

(** The constructor's documented domain. *)
Definition positive_integer (v : pyval) : Prop := ∃ n, v = PyInt n ∧ 1 ≤ n.
Definition is_positive (x : spec_float) : Prop :=
  match x with S754_infinity false | S754_finite false _ _ => True | _ => False end.
Definition is_non_negative (x : spec_float) : Prop :=
  match x with S754_zero _ => True | _ => is_positive x end.
Definition positive_float (v : pyval) : Prop := ∃ x, v = PyFloat x ∧ is_positive x.
Definition non_negative_float (v : pyval) : Prop := ∃ x, v = PyFloat x ∧ is_non_negative x.
Definition schedule_name (v : pyval) : Prop :=
  v = PyStr "constant" ∨ v = PyStr "invscaling".

(** A feature table covers an index exactly when its identifier column
    lists every known identifier once and nothing else. *)
Definition covers (ids : list Z) (t : feature_table) : Prop := (ft_rows t).*1 ≡ₚ ids.

Definition schema_mismatch (users items : list Z)
    (user_features item_features : option feature_table) : Prop :=
  (∃ t, user_features = Some t ∧ ¬ covers users t) ∨
  (∃ t, item_features = Some t ∧ ¬ covers items t).

(** The index attributes as [_init_all] builds them over the identifier
    lists [users] and [items]. *)
Definition indexed_by (users items : list Z) (s : RankFM) : Prop :=
  index_to_user (index s) = Some users ∧
  index_to_item (index s) = Some items ∧
  user_to_index (index s) = Some (reverse_index users) ∧
  item_to_index (index s) = Some (reverse_index items) ∧
  user_idx (index s) = Some (wrap32 <$> np_arange (length users)) ∧
  item_idx (index s) = Some (wrap32 <$> np_arange (length items)).

(** The observed-sets agree with the interaction array. *)
Definition observed_in (rows : list (Z * Z)) (d : gmap Z (list Z)) : Prop :=
  ∀ u i, (u, i) ∈ rows ↔ ∃ items, d !! u = Some items ∧ i ∈ items.

Definition observed_consistent (s : RankFM) : Prop :=
  ∃ rows py nb,
    interactions (data s) = Some (IArray rows) ∧
    user_items_py (data s) = Some py ∧
    user_items_nb (data s) = Some nb ∧
    observed_in rows py ∧ observed_in rows nb.

(** A model that has been fit: the flag is set and every attribute a
    prediction reads holds a value. *)
Definition trained (s : RankFM) : Prop :=
  is_fit s = true ∧
  is_Some (user_to_index (index s)) ∧ is_Some (item_to_index (index s)) ∧
  is_Some (index_to_item (index s)) ∧
  is_Some (user_items_nb (data s)) ∧
  is_Some (x_uf (data s)) ∧ is_Some (x_if (data s)) ∧
  is_Some (w_i (store s)) ∧ is_Some (w_if (store s)) ∧
  is_Some (v_u (store s)) ∧ is_Some (v_i (store s)) ∧
  is_Some (v_uf (store s)) ∧ is_Some (v_if (store s)).


(** The outcome of one computation as a function of the outcome of
    another. *)
Definition map_outcome {W A B} (f : A → B) (r : (exn + A) * W) : (exn + B) * W :=
  (match r.1 with inr a => inr (f a) | inl e => inl e end, r.2).

(** The two halves of [fit_partial], named for the statements about it:
    the initialisation it chooses by the flag, and the call of the trainer
    with the state that initialisation leaves. *)
Definition prepare {rng} `{!Engine rng} (interactions : list (Z * Z))
    (user_features item_features : option feature_table) : M rng unit :=
  fitted ← gets is_fit;
  if fitted : bool
  then _init_interactions interactions;; _init_features user_features item_features
  else _init_all interactions user_features item_features.

Definition train {rng} `{!Engine rng} (epochs : Z) (verbose : bool) : M rng retval :=
  ints ← attr interactions_array;
  nb ← attr (user_items_nb ∘ data);
  iidx ← attr (item_idx ∘ index);
  hp ← gets hyper;
  xuf ← attr (x_uf ∘ data);
  xif ← attr (x_if ∘ data);
  ws ← current_arrays;
  updated_weights ← call_fit
    (FitArgs ints nb iidx (regularization hp) (learning_rate hp) (learning_schedule hp)
             (learning_exponent hp) epochs verbose xuf xif ws);
  assign (with_store (λ _, store_of updated_weights));;
  assign (set_is_fit true);;
  mret RetSelf.

(** The index attributes [_init_all] assigns for a given interaction
    table (lines 104-119). *)
Definition fresh_index (interactions : list (Z * Z)) : indexes :=
  let users := np_sort (np_unique (interactions.*1)) in
  let items := np_sort (np_unique (interactions.*2)) in
  Indexes (Some users) (Some items)
          (Some (wrap32 <$> np_arange (length users)))
          (Some (wrap32 <$> np_arange (length items)))
          (Some users) (Some items)
          (Some (reverse_index users)) (Some (reverse_index items)).

(** The dictionary of observed items [_init_interactions] builds from the
    mapped rows (line 151). *)
Definition observed_sets (rows : list (Z * Z)) : gmap Z (list Z) :=
  list_to_map (groupby_user (sort_values rows)).

(** The feature matrix [_init_features] stores over an index with the
    identifiers [ids]: the table's rows ordered by position (lines 172,
    184), or one column of zeros when no table is given (lines 176, 188). *)
Definition feature_matrix (ids : list Z) (features : option feature_table) : ndarray2 :=
  match features with
  | Some t => sorted_features (reverse_index ids) t
  | None => nd_astype_float32 (np_zeros2 (length ids) 1)
  end.

(** A user-feature table for the users 7, 8 and 9, its rows out of index
    order: 9 has feature 2.0, 7 has 0.0, 8 has 1.0. *)
Definition table1 : feature_table :=
  FeatureTable 1 [(9, [S754_finite false 1 1]); (7, [f0]); (8, [S754_finite false 1 0])].

(** [a.shape == (n, m)], every row as long as the column count. *)
Definition has_shape (a : ndarray2) (n m : nat) : Prop :=
  nd_cols a = m ∧ length (nd_rows a) = n ∧ Forall (λ row, length row = m) (nd_rows a).

(** ** The similarity queries *)

(** What [similar_items] and [similar_users] raise: the exceptions of the
    other methods and three more. *)
Inductive pyexn :=
  | Exn (e : exn)
  | UnboundLocalError
  | IndexError
  | AttributeError.

#[global] Instance pyexn_ret : MRet (sum pyexn) := λ A a, inr a.
#[global] Instance pyexn_bind : MBind (sum pyexn) := λ A B f m,
  match m with inr a => f a | inl e => inl e end.

(** The numpy and pandas operations of the two queries that their
    arguments do not determine (the order in which [np.dot] adds up the
    products, the order [sort_values] leaves equal scores in) or whose
    shape rules the queries only pass through (broadcasting in [+]). *)
Class Numpy := {
  np_dot_mv : ndarray2 → list spec_float → pyexn + list spec_float;
  np_dot_mm : ndarray2 → ndarray2 → pyexn + ndarray2;
  np_add_vv : list spec_float → list spec_float → pyexn + list spec_float;
  np_add_mm : ndarray2 → ndarray2 → pyexn + ndarray2;
  sort_values_descending : list (Z * spec_float) → list (Z * spec_float) }.

(** An attribute that is still [None]: [None[i]] and [.map(None)] are a
    [TypeError], [None.T] and [None.loc] an [AttributeError]. *)
Definition need {A} (e : pyexn) (v : option A) : pyexn + A :=
  match v with Some a => inr a | None => inl e end.

(** [a[i]] on the first axis, for an integer [i]. *)
Definition np_getitem (a : ndarray2) (i : Z) : pyexn + list spec_float :=
  let n := Z.of_nat (length (nd_rows a)) in
  let k := if bool_decide (i < 0) then i + n else i in
  if bool_decide (0 ≤ k < n)
  then match nd_rows a !! Z.to_nat k with Some row => inr row | None => inl IndexError end
  else inl IndexError.

(** [a.T] *)
Definition nd_T (a : ndarray2) : ndarray2 :=
  Ndarray2 (length (nd_rows a)) (nd_column a <$> seq 0 (nd_cols a)).

(** [pd.Series(values)]: the values labelled by their positions. *)
Definition pd_series (values : list spec_float) : list (Z * spec_float) :=
  zip (np_arange (length values)) values.

(** [series.drop(label)] *)
Definition series_drop (s : list (Z * spec_float)) (label : Z)
    : pyexn + list (Z * spec_float) :=
  if bool_decide (label ∈ s.*1) then inr (filter (λ r, r.1 ≠ label) s)
  else inl (Exn KeyError).

(** [series[:n]] *)
Definition slice_to {A} (n : Z) (l : list A) : list A :=
  if bool_decide (0 ≤ n) then take (Z.to_nat n) l
  else take (length l - Z.to_nat (- n)) l.

(** find the most similar items wrt latent factor space representation.
    The result is the series returned or the exception raised, and the
    identifiers reported on the standard output.  For an identifier that is
    not in the index the handler prints and the body goes on with
    [item_idx] never assigned. *)
Definition similar_items `{!Numpy} (s : RankFM) (item_id n_items : Z)
    : (pyexn + list (option Z)) * list Z :=
  if negb (is_fit s) then (inl (Exn AssertionError), [])
  else
    match need AttributeError (item_to_index (index s)) with
    | inl e => (inl e, [])
    | inr i2i =>
        match i2i !! item_id with
        | None => (inl UnboundLocalError, [item_id])
        | Some item_idx =>
            (vi ← need (Exn TypeError) (v_i (store s));
             factor ← np_getitem vi item_idx;
             vif ← need AttributeError (v_if (store s));
             xif ← need (Exn TypeError) (x_if (data s));
             features ← np_getitem xif item_idx;
             term ← np_dot_mv (nd_T vif) features;
             lr_item ← np_add_vv factor term;
             terms ← np_dot_mm xif vif;
             lr_all_items ← np_add_mm vi terms;
             scores ← np_dot_mv lr_all_items lr_item;
             rest ← series_drop (pd_series scores) item_idx;
             let similarities := slice_to n_items (sort_values_descending rest) in
             i2item ← need (Exn TypeError) (index_to_item (index s));
             mret ((λ p, item_at i2item (Some p)) <$> similarities.*1), [])
        end
    end.

(** find the most similar users wrt latent factor space representation.
    The factors read are [v_i], as in the source. *)
Definition similar_users `{!Numpy} (s : RankFM) (user_id n_users : Z)
    : (pyexn + list (option Z)) * list Z :=
  if negb (is_fit s) then (inl (Exn AssertionError), [])
  else
    match need AttributeError (user_to_index (index s)) with
    | inl e => (inl e, [])
    | inr u2i =>
        match u2i !! user_id with
        | None => (inl UnboundLocalError, [user_id])
        | Some user_idx =>
            (vi ← need (Exn TypeError) (v_i (store s));
             factor ← np_getitem vi user_idx;
             vuf ← need AttributeError (v_uf (store s));
             xuf ← need (Exn TypeError) (x_uf (data s));
             features ← np_getitem xuf user_idx;
             term ← np_dot_mv (nd_T vuf) features;
             lr_user ← np_add_vv factor term;
             terms ← np_dot_mm xuf vuf;
             lr_all_users ← np_add_mm vi terms;
             scores ← np_dot_mv lr_all_users lr_user;
             rest ← series_drop (pd_series scores) user_idx;
             let similarities := slice_to n_users (sort_values_descending rest) in
             i2user ← need (Exn TypeError) (index_to_user (index s));
             mret ((λ p, item_at i2user (Some p)) <$> similarities.*1), [])
        end
    end.

(** A numpy for operands of matching shapes: products added up from left
    to right in binary32, no broadcasting, a stable sort, NaN last. *)
Module PlainNumpy.

Definition score_ge (a b : Z * spec_float) : Prop :=
  np_isnan b.2 = true ∨ SFleb b.2 a.2 = true.
#[global] Instance score_ge_dec a b : Decision (score_ge a b).
Proof. unfold score_ge. apply _. Defined.

Definition same_length {A B} (a : list A) (b : list B) : bool :=
  bool_decide (length a = length b).

#[global] Instance numpy : Numpy := {|
  np_dot_mv := λ m v,
    if forallb (λ row, same_length row v) (nd_rows m)
    then inr ((λ row, f32_dot row v) <$> nd_rows m)
    else inl (Exn ValueError);
  np_dot_mm := λ a b,
    if forallb (λ row, same_length row (nd_rows b)) (nd_rows a)
    then inr (Ndarray2 (nd_cols b)
                ((λ row, (λ j, f32_dot row (nd_column b j)) <$> seq 0 (nd_cols b))
                   <$> nd_rows a))
    else inl (Exn ValueError);
  np_add_vv := λ a b,
    if same_length a b then inr (zip_with f32_add a b) else inl (Exn ValueError);
  np_add_mm := λ a b,
    if same_length (nd_rows a) (nd_rows b) && bool_decide (nd_cols a = nd_cols b)
    then inr (Ndarray2 (nd_cols a) (zip_with (zip_with f32_add) (nd_rows a) (nd_rows b)))
    else inl (Exn ValueError);
  sort_values_descending := merge_sort score_ge |}.

(** Two users and one item. *)
Definition log2 : list (Z * Z) := [(7, 100); (8, 100)].

End PlainNumpy.



(** An engine whose trainer learns something (the weights are "mutated in
    place by every Trainer step"): it returns every item bias as 1.0 and
    the other arrays as given.  The rest is as in [Reference]. *)
Module Bumping.

Definition one : spec_float := S754_finite false 8388608 (-23).

Definition engine : Engine nat := {|
  np_random_normal := λ _ scale g, (scale, S g);
  _fit := λ a g,
    (Arrays ((λ _, one) <$> a_w_i (fa_weights a)) (a_w_if (fa_weights a))
            (a_v_u (fa_weights a)) (a_v_i (fa_weights a))
            (a_v_uf (fa_weights a)) (a_v_if (fa_weights a)), g);
  _predict := λ a, Reference.score_pair <$> pa_pairs a;
  _recommend_for_users := λ a, Reference.recommend_row a <$> ra_users a |}.

End Bumping.

(** How a mapped cell reaches the engine: NaN for an unknown identifier;
    for a position the nearest [float32], taken directly when nothing in
    the column or frame is unknown and through [float64] otherwise. *)
Definition passed_as (some_unknown : Prop) (c : option Z) (x : spec_float) : Prop :=
  match c with
  | None => x = S754_nan
  | Some z => (¬ some_unknown → x = float32_of_int z) ∧
              (some_unknown → x = astype_float32 (float64_of_int z))
  end.

(** A computation keeps an observation [P] of the state when [P] reads the
    same after the computation as before it, whether it returns or
    raises. *)
Definition keeps {rng A X} (P : world rng → X) (m : M rng A) : Prop :=
  ∀ w, P (m w).2 = P w.

(** * Properties *)

(** ** Construction *)

Lemma float_gt0_spec x : float_gt0 x = true ↔ is_positive x.
Proof. destruct x as [[]|[]| |[] m e]; cbn; intuition congruence. Qed.

Lemma float_ge0_spec x : float_ge0 x = true ↔ is_non_negative x.
Proof. destruct x as [[]|[]| |[] m e]; cbn; intuition congruence. Qed.

Lemma init_valid f r sg lr ls le s :
  __init__ f r sg lr ls le = inr s →
  positive_integer f ∧ non_negative_float r ∧ positive_float sg ∧
  positive_float lr ∧ schedule_name ls ∧ positive_float le.
Proof.
  unfold __init__.
  destruct f as [|n| |]; try discriminate.
  destruct r as [| |r|]; try discriminate.
  destruct sg as [| |sg|]; try discriminate.
  destruct lr as [| |lr|]; try discriminate.
  destruct ls as [| | |ls]; try discriminate.
  destruct le as [| |le|]; try discriminate.
  destruct (1 <=? n) eqn:Hn; [|discriminate].
  destruct (float_ge0 r) eqn:Hr; [|discriminate].
  destruct (float_gt0 sg) eqn:Hsg; [|discriminate].
  destruct (float_gt0 lr) eqn:Hlr; [|discriminate].
  destruct (bool_decide (ls = "constant") || bool_decide (ls = "invscaling")) eqn:Hls;
    [|discriminate].
  destruct (float_gt0 le) eqn:Hle; [|discriminate].
  intros _. cbn in *.
  apply Z.leb_le in Hn. apply float_ge0_spec in Hr.
  apply float_gt0_spec in Hsg, Hlr, Hle.
  apply orb_true_iff in Hls.
  repeat split; unfold positive_integer, non_negative_float, positive_float; eauto.
  destruct Hls as [H|H]; apply bool_decide_eq_true in H; subst; [left|right]; done.
Qed.

(** C6.  A constructor call in which the factor rank is not a positive
    integer, or the regularization is not a non-negative float, or sigma,
    the learning rate or the learning exponent is not a positive float, or
    the schedule is neither 'constant' nor 'invscaling', fails with an
    [AssertionError] and yields no object. *)
Theorem init_rejects_invalid_hyperparameters f r sg lr ls le :
  ¬ positive_integer f ∨ ¬ non_negative_float r ∨ ¬ positive_float sg ∨
  ¬ positive_float lr ∨ ¬ schedule_name ls ∨ ¬ positive_float le →
  __init__ f r sg lr ls le = inl AssertionError.
Proof.
  intros Hbad.
  destruct (__init__ f r sg lr ls le) as [e|s] eqn:Hrun.
  - revert Hrun. unfold __init__.
    repeat (case_match; try discriminate); congruence.
  - apply init_valid in Hrun. tauto.
Qed.

Lemma init_rejects_invalid_hyperparameters_witness :
  __init__ (PyInt 0) (PyFloat f0) (PyFloat Reference.f64_0_1) (PyFloat Reference.f64_0_1)
           (PyStr "constant") (PyFloat Reference.f64_0_25) = inl AssertionError.
Proof.
  apply init_rejects_invalid_hyperparameters.
  left. intros (n & Hn & Hle). inversion Hn. lia.
Defined.

(** ** numpy and pandas facts *)

Lemma astype_float32_zero : astype_float32 f0 = f0.
Proof. reflexivity. Qed.

Lemma vec_astype_float32_zeros n : vec_astype_float32 (np_zeros n) = np_zeros n.
Proof. unfold vec_astype_float32, np_zeros. by rewrite fmap_replicate. Qed.

Lemma nd_astype_float32_zeros n m : nd_astype_float32 (np_zeros2 n m) = np_zeros2 n m.
Proof.
  unfold nd_astype_float32, np_zeros2. cbn.
  by rewrite fmap_replicate, vec_astype_float32_zeros.
Qed.

(** *** Casting positions to [float32] *)









Lemma np_unique_elem l x : x ∈ np_unique l ↔ x ∈ l.
Proof. unfold np_unique. by rewrite merge_sort_Permutation, elem_of_remove_dups. Qed.

Lemma np_unique_NoDup l : NoDup (np_unique l).
Proof. unfold np_unique. rewrite merge_sort_Permutation. apply NoDup_remove_dups. Qed.

Lemma np_sort_elem l x : x ∈ np_sort l ↔ x ∈ l.
Proof. unfold np_sort. by rewrite merge_sort_Permutation. Qed.

Lemma np_arange_length n : length (np_arange n) = n.
Proof. unfold np_arange. by rewrite length_fmap, length_seq. Qed.

Lemma np_arange_lookup (n k : nat) : (k < n)%nat → np_arange n !! k = Some (Z.of_nat k).
Proof.
  intros Hk. unfold np_arange. rewrite list_lookup_fmap, lookup_seq_lt by done. done.
Qed.

Lemma np_arange_elem (n : nat) (z : Z) : z ∈ np_arange n ↔ 0 ≤ z < Z.of_nat n.
Proof.
  unfold np_arange. rewrite list_elem_of_fmap. split.
  - intros (k & -> & Hk). apply elem_of_seq in Hk. lia.
  - intros Hz. exists (Z.to_nat z). split; [lia|]. apply elem_of_seq. lia.
Qed.

(** A position recorded by the reverse mapping is the position of the
    identifier in the list. *)
Lemma reverse_index_Some ids k p :
  reverse_index ids !! k = Some p →
  0 ≤ p < Z.of_nat (length ids) ∧ ids !! Z.to_nat p = Some k.
Proof.
  unfold reverse_index. intros H%elem_of_list_to_map_2.
  apply list_elem_of_lookup in H as [j Hj].
  apply lookup_zip_with_Some in Hj as (a & b & Heq & Ha & Hb).
  inversion Heq; subst a b.
  pose proof (lookup_lt_Some _ _ _ Ha) as Hlt.
  rewrite np_arange_lookup in Hb by done. inversion Hb; subst p.
  rewrite Nat2Z.id. split; [lia|done].
Qed.

Lemma reverse_index_is_Some ids k : k ∈ ids → is_Some (reverse_index ids !! k).
Proof.
  intros Hk. unfold reverse_index.
  destruct (list_to_map (zip ids (np_arange (length ids))) !! k) eqn:E; [eauto|].
  apply not_elem_of_list_to_map in E.
  rewrite fst_zip in E by (rewrite np_arange_length; lia). done.
Qed.

Lemma astype_int32_inr col vs :
  astype_int32 col = inr vs → ∃ raw, col = Some <$> raw ∧ vs = wrap32 <$> raw.
Proof.
  unfold astype_int32. destruct (mapM id col) as [raw|] eqn:E; [|discriminate].
  intros [= <-]. exists raw. split; [|done].
  apply mapM_Some_1 in E. clear -E.
  induction E as [|x y l k Hxy _ IH]; [done|]. cbn in *. by rewrite Hxy, IH.
Qed.

Lemma astype_int32_inl col e :
  astype_int32 col = inl e → e = ValueError ∧ None ∈ col.
Proof.
  unfold astype_int32. destruct (mapM id col) as [raw|] eqn:E; [discriminate|].
  intros [= <-]. split; [done|].
  destruct (decide (None ∈ col)) as [|Hn]; [done|]. exfalso.
  assert (is_Some (mapM id col)) as [? ?]; [|congruence].
  apply mapM_is_Some. apply Forall_forall. intros [x|] Hx; [by eexists|done].
Qed.

Lemma astype_int32_series_map m col :
  Forall (λ k, is_Some (m !! k)) col →
  ∃ vs, astype_int32 (series_map m col) = inr vs ∧ length vs = length col.
Proof.
  intros Hall. unfold astype_int32, series_map.
  destruct (mapM id ((λ k, m !! k) <$> col)) as [raw|] eqn:E.
  - exists (wrap32 <$> raw). split; [done|].
    apply length_mapM in E. rewrite !length_fmap in *. done.
  - assert (is_Some (mapM id ((λ k, m !! k) <$> col))) as [? ?]; [|congruence].
    apply mapM_is_Some. apply Forall_fmap. eapply Forall_impl; [exact Hall|]. done.
Qed.

Lemma dropna_astype_int32_full us its :
  dropna_astype_int32 (zip (Some <$> us) (Some <$> its)) =
  (λ r, (wrap32 r.1, wrap32 r.2)) <$> zip us its.
Proof.
  unfold dropna_astype_int32. f_equal.
  revert its. induction us as [|u us IH]; intros [|i its]; cbn; [done..|].
  by rewrite IH.
Qed.

Lemma items_of_elem u i rows : i ∈ items_of u rows ↔ (u, i) ∈ rows.
Proof.
  unfold items_of. rewrite list_elem_of_fmap. split.
  - intros ([u' i'] & -> & H). apply list_elem_of_filter in H as [Hu H]. cbn in *. by subst.
  - intros H. exists (u, i). split; [done|]. by apply list_elem_of_filter.
Qed.

Lemma groupby_user_lookup rows u :
  (list_to_map (groupby_user rows) : gmap Z (list Z)) !! u =
  if decide (u ∈ rows.*1) then Some (items_of u rows) else None.
Proof.
  unfold groupby_user. case_decide as Hu.
  - apply elem_of_list_to_map_1.
    + rewrite <- list_fmap_compose. unfold compose. cbn. rewrite list_fmap_id.
      apply np_unique_NoDup.
    + apply list_elem_of_fmap. exists u. split; [done|]. by apply np_unique_elem.
  - apply not_elem_of_list_to_map_1.
    rewrite <- list_fmap_compose. unfold compose. cbn. rewrite list_fmap_id.
    by rewrite np_unique_elem.
Qed.

(** The dictionary built by [_init_interactions] holds exactly the pairs of
    the interaction array. *)
Lemma groupby_user_observed rows :
  observed_in rows (list_to_map (groupby_user (sort_values rows))).
Proof.
  intros u i. rewrite groupby_user_lookup.
  assert (∀ p, p ∈ sort_values rows ↔ p ∈ rows) as Hperm.
  { intros p. unfold sort_values. by rewrite merge_sort_Permutation. }
  split.
  - intros Hin. exists (items_of u (sort_values rows)). split.
    + rewrite decide_True; [done|].
      apply list_elem_of_fmap. exists (u, i). split; [done|]. by apply Hperm.
    + apply items_of_elem. by apply Hperm.
  - intros (items & Hl & Hi). case_decide; [|done]. inversion Hl; subst items.
    apply Hperm. by apply items_of_elem.
Qed.

(** Copying a dictionary entry by entry gives the same dictionary. *)
Lemma typed_dict_copy (py : gmap Z (list Z)) :
  map_fold (λ user items nb, <[user := items]> nb) ∅ py = py.
Proof.
  apply (map_fold_weak_ind (λ r m, r = m)); [done|].
  intros k x m r Hk ->. done.
Qed.

Ltac int32_bounds :=
  change (2 ^ 32) with 4294967296 in *; change (2 ^ 31) with 2147483648 in *.

Lemma wrap32_small z : - 2 ^ 31 ≤ z < 2 ^ 31 → wrap32 z = z.
Proof.
  intros Hz. unfold wrap32. int32_bounds. rewrite Z.mod_small; lia.
Qed.

Lemma wrap32_arange (n : nat) :
  Z.of_nat n ≤ 2 ^ 31 → wrap32 <$> np_arange n = np_arange n.
Proof.
  intros Hn. rewrite <- (list_fmap_id (np_arange n)) at 2.
  apply list_fmap_ext. intros k z Hz%list_elem_of_lookup_2%np_arange_elem.
  unfold id. apply wrap32_small. int32_bounds. lia.
Qed.

Lemma positions_of_labels (m : gmap Z Z) labels ls :
  mapM id (series_map m labels) = Some ls →
  Forall2 (λ k p, m !! k = Some p) labels ls.
Proof.
  intros E%mapM_Some_1. unfold series_map in E.
  by apply Forall2_fmap_l in E.
Qed.

(** The check of [_init_features] accepts a table only when its identifier
    column is a rearrangement of the known identifiers. *)
Lemma array_equal_sorted_covers ids t :
  array_equal_sorted (series_map (reverse_index ids) (ft_rows t).*1)
                     (Some (wrap32 <$> np_arange (length ids))) = true →
  covers ids t.
Proof.
  unfold array_equal_sorted, covers. set (labels := (ft_rows t).*1). clearbody labels.
  destruct (mapM id (series_map (reverse_index ids) labels)) as [ls|] eqn:E; [|discriminate].
  intros Hs%bool_decide_eq_true.
  apply positions_of_labels in E.
  assert (ls ≡ₚ wrap32 <$> np_arange (length ids)) as Hperm.
  { rewrite <- Hs. symmetry. apply merge_sort_Permutation. }
  assert (Forall (λ p, 0 ≤ p) ls) as Hpos.
  { clear -E. induction E as [|k p l' k' Hkp _ IH]; constructor; [|done].
    apply reverse_index_Some in Hkp. lia. }
  assert (Z.of_nat (length ids) ≤ 2 ^ 31) as Hbound.
  { destruct (decide (Z.of_nat (length ids) ≤ 2 ^ 31)) as [|Hbig]; [done|]. exfalso.
    assert (wrap32 (2 ^ 31) ∈ ls) as Hin.
    { rewrite Hperm. apply list_elem_of_fmap_2, np_arange_elem. int32_bounds. lia. }
    rewrite Forall_forall in Hpos. apply Hpos in Hin. revert Hin. by vm_compute. }
  rewrite wrap32_arange in Hperm by done.
  set (g := λ p : Z, default 0 (ids !! Z.to_nat p)).
  assert (labels = g <$> ls) as ->.
  { clear -E. induction E as [|k p l' k' Hkp _ IH]; [done|]. cbn. f_equal; [|done].
    apply reverse_index_Some in Hkp as [_ Hk]. unfold g. by rewrite Hk. }
  assert (ids = g <$> np_arange (length ids)) as Hids.
  { apply list_eq. intros k. rewrite list_lookup_fmap.
    destruct (ids !! k) as [x|] eqn:Hk.
    - rewrite np_arange_lookup by (by eapply lookup_lt_Some). cbn.
      unfold g. by rewrite Nat2Z.id, Hk.
    - rewrite (proj2 (lookup_ge_None _ _)); [done|].
      rewrite np_arange_length. by apply lookup_ge_None. }
  transitivity (g <$> np_arange (length ids)); [by apply fmap_Permutation|].
  by rewrite <- Hids.
Qed.

(** ** Running computations *)

Section monad_facts.
Context {rng : Type} `{!Engine rng}.
Implicit Types w : world rng.

Lemma bind_run {A B} (m : M rng A) (f : A → M rng B) w :
  (m ≫= f) w =
  match m w with (inr a, w') => f a w' | (inl e, w') => (inl e, w') end.
Proof. reflexivity. Qed.

Lemma bind_ok {A B} (m : M rng A) (f : A → M rng B) w a w1 :
  m w = (inr a, w1) → (m ≫= f) w = f a w1.
Proof. intros H. by rewrite bind_run, H. Qed.

Lemma bind_raise {A B} (m : M rng A) (f : A → M rng B) w e w1 :
  m w = (inl e, w1) → (m ≫= f) w = (inl e, w1).
Proof. intros H. by rewrite bind_run, H. Qed.

Lemma bind_inv_ok {A B} (m : M rng A) (f : A → M rng B) w b w' :
  (m ≫= f) w = (inr b, w') → ∃ a w1, m w = (inr a, w1) ∧ f a w1 = (inr b, w').
Proof.
  rewrite bind_run. destruct (m w) as [[e|a] w1]; [discriminate|]. eauto.
Qed.

Lemma attr_ok {A} (f : RankFM → option A) w a :
  f (self w) = Some a → attr f w = (inr a, w).
Proof. intros H. unfold attr. by rewrite H. Qed.

Lemma attr_inv_ok {A} (f : RankFM → option A) w a w' :
  attr f w = (inr a, w') → f (self w) = Some a ∧ w' = w.
Proof. unfold attr. destruct (f (self w)); intros [= <- <-]; done. Qed.

Lemma keeps_ret {A X} (P : world rng → X) (a : A) : keeps P (mret a).
Proof. by intros w. Qed.

Lemma keeps_raise {A X} (P : world rng → X) e : keeps P (raise e : M rng A).
Proof. by intros w. Qed.

Lemma keeps_gets {A X} (P : world rng → X) (f : RankFM → A) : keeps P (gets f).
Proof. by intros w. Qed.

Lemma keeps_lift {A X} (P : world rng → X) (r : exn + A) : keeps P (lift r).
Proof. by intros w. Qed.

Lemma keeps_attr {A X} (P : world rng → X) (f : RankFM → option A) : keeps P (attr f).
Proof. intros w. unfold attr. by destruct (f (self w)). Qed.

Lemma keeps_py_assert {X} (P : world rng → X) b : keeps P (py_assert b).
Proof. intros w. by destruct b. Qed.

Lemma keeps_assign {X} (P : world rng → X) f :
  (∀ w, P (World (f (self w)) (np_random w) (engine_calls w)) = P w) →
  keeps P (assign f).
Proof. intros H w. apply H. Qed.

Lemma keeps_bind {A B X} (P : world rng → X) (m : M rng A) (f : A → M rng B) :
  keeps P m → (∀ a, keeps P (f a)) → keeps P (m ≫= f).
Proof.
  intros Hm Hf w. rewrite bind_run. specialize (Hm w).
  destruct (m w) as [[e|a] w1]; cbn in *; [done|]. by rewrite Hf.
Qed.

Lemma keeps_random_normal {X} (P : world rng → X) loc scale n m :
  (∀ w g, P (World (self w) g (engine_calls w)) = P w) →
  keeps P (random_normal loc scale n m).
Proof.
  intros H w. unfold random_normal.
  destruct (normal_rows loc scale n m (np_random w)) as [rs g]. apply H.
Qed.

End monad_facts.

Ltac keeps_step :=
  lazymatch goal with
  | |- keeps _ (mret _) => apply keeps_ret
  | |- keeps _ (raise _) => apply keeps_raise
  | |- keeps _ (gets _) => apply keeps_gets
  | |- keeps _ (lift _) => apply keeps_lift
  | |- keeps _ (attr _) => apply keeps_attr
  | |- keeps _ (py_assert _) => apply keeps_py_assert
  | |- keeps _ (assign _) => apply keeps_assign; intros ?; reflexivity
  | |- keeps _ (random_normal _ _ _ _) => apply keeps_random_normal; intros ? ?; reflexivity
  | |- keeps _ (_ ≫= _) => apply keeps_bind; [|intros ?]
  | |- keeps _ (match ?x with _ => _ end) => destruct x
  end.
Ltac keeps_auto := repeat keeps_step.

Section frames.
Context {rng : Type} `{!Engine rng}.
Implicit Types w : world rng.

(** What [_init_interactions] leaves alone. *)
Lemma init_interactions_keeps ints :
  keeps (λ w : world rng,
           (hyper (self w), index (self w), store (self w), is_fit (self w),
            x_uf (data (self w)), x_if (data (self w)), np_random w, engine_calls w))
        (_init_interactions ints).
Proof. unfold _init_interactions. keeps_auto. Qed.

(** What [_init_features] leaves alone. *)
Lemma init_features_keeps uf itf :
  keeps (λ w : world rng,
           (hyper (self w), index (self w), store (self w), is_fit (self w),
            interactions (data (self w)), user_items_py (data (self w)),
            user_items_nb (data (self w)), np_random w, engine_calls w))
        (_init_features uf itf).
Proof. unfold _init_features. keeps_auto. Qed.

(** What [_init_weights] leaves alone. *)
Lemma init_weights_keeps uf itf :
  keeps (λ w : world rng,
           (hyper (self w), index (self w), data (self w), is_fit (self w), engine_calls w))
        (_init_weights uf itf).
Proof. unfold _init_weights. keeps_auto. Qed.

End frames.

(** Symbolic execution of a run recorded in a hypothesis: unfold the next
    step, and split on the value it depends on. *)
Ltac run_split H x :=
  let E := fresh "Hrun" in
  lazymatch x with
  | match ?y with _ => _ end => run_split H y
  | (match ?y with _ => _ end) _ => run_split H y
  | (if ?y then _ else _) _ => run_split H y
  | _ => destruct x eqn:E; try discriminate H
  end.
Ltac run_step H :=
  first
    [ rewrite bind_run in H
    | progress cbn in H
    | progress unfold attr, lift, py_assert, raise, assign, gets, call_fit, call_predict,
        call_recommend, random_normal in H
    | lazymatch type of H with
      | (match ?x with _ => _ end) = _ => run_split H x
      | (match ?x with _ => _ end) _ = _ => run_split H x
      | (let (_, _) := ?x in _) = _ => run_split H x
      end ].
Ltac run H := repeat run_step H.

#[local] Arguments _init_interactions : simpl never.
#[local] Arguments _init_features : simpl never.
#[local] Arguments _init_weights : simpl never.
#[local] Arguments _init_all : simpl never.
#[local] Arguments fit_partial : simpl never.
#[local] Arguments current_arrays : simpl never.

Section claims.
Context {rng : Type} `{!Engine rng}.
Implicit Types w : world rng.

Lemma init_interactions_consistent ints w w' :
  _init_interactions ints w = (inr (), w') → observed_consistent (self w').
Proof.
  unfold _init_interactions. intros H. run H. injection H as <-.
  eexists _, _, _. cbn. split_and!; [done..| |].
  - apply groupby_user_observed.
  - rewrite typed_dict_copy. apply groupby_user_observed.
Qed.

Lemma observed_consistent_ext (s s' : RankFM) :
  interactions (data s') = interactions (data s) →
  user_items_py (data s') = user_items_py (data s) →
  user_items_nb (data s') = user_items_nb (data s) →
  observed_consistent s → observed_consistent s'.
Proof.
  intros H1 H2 H3 (rows & py & nb & ? & ? & ? & ? & ?).
  exists rows, py, nb. rewrite H1, H2, H3. done.
Qed.

Lemma init_features_consistent uf itf w r w' :
  _init_features uf itf w = (r, w') →
  observed_consistent (self w) → observed_consistent (self w').
Proof.
  intros Hrun. pose proof (init_features_keeps uf itf w) as K.
  rewrite Hrun in K. cbn in K. injection K as _ _ _ _ K1 K2 K3 _ _.
  by apply observed_consistent_ext.
Qed.

Lemma init_weights_consistent uf itf w r w' :
  _init_weights uf itf w = (r, w') →
  observed_consistent (self w) → observed_consistent (self w').
Proof.
  intros Hrun. pose proof (init_weights_keeps uf itf w) as K.
  rewrite Hrun in K. cbn in K. injection K as _ _ K _ _.
  apply observed_consistent_ext; by rewrite K.
Qed.

Lemma init_all_consistent ints uf itf w w' :
  _init_all ints uf itf w = (inr (), w') → observed_consistent (self w').
Proof.
  unfold _init_all. intros H.
  do 8 (apply bind_inv_ok in H as ([] & ? & _ & H)).
  apply bind_inv_ok in H as ([] & w1 & H1 & H).
  apply bind_inv_ok in H as ([] & w2 & H2 & H3).
  eapply init_weights_consistent; [exact H3|].
  eapply init_features_consistent; [exact H2|].
  by eapply init_interactions_consistent.
Qed.

Lemma current_arrays_inv w a w' :
  current_arrays w = (inr a, w') → w' = w ∧ store_of a = store (self w).
Proof.
  unfold current_arrays. intros H. run H.
  unfold mret, M_ret in H. injection H as <- <-. split; [done|].
  destruct (self w) as [? ? ? [] ?]. cbn in *. by simplify_eq.
Qed.

(** What the part of [fit_partial] after the initialisation does to a
    state [w1]: it reads it, calls the trainer once with the arrays it
    holds, and stores the result. *)
Lemma fit_partial_inv ints uf itf epochs verbose w r w' :
  fit_partial ints uf itf epochs verbose w = (inr r, w') →
  ∃ w1 a,
    (if is_fit (self w)
     then (_init_interactions ints;; _init_features uf itf) w
     else _init_all ints uf itf w) = (inr (), w1) ∧
    store_of (fa_weights a) = store (self w1) ∧
    r = RetSelf ∧
    w' = World (set_is_fit true (with_store (λ _, store_of (_fit a (np_random w1)).1)
                                  (self w1)))
               (_fit a (np_random w1)).2 (engine_calls w1 ++ [CallFit a]).
Proof.
  unfold fit_partial. intros H.
  apply bind_inv_ok in H as (fitted & w0 & Hg & H).
  unfold gets in Hg. injection Hg as <- <-.
  apply bind_inv_ok in H as ([] & w1 & Hinit & H).
  exists w1.
  do 3 (apply bind_inv_ok in H as (? & ? & [_ ->]%attr_inv_ok & H)).
  apply bind_inv_ok in H as (hp & ? & Hg & H). unfold gets in Hg. injection Hg as <- <-.
  do 2 (apply bind_inv_ok in H as (? & ? & [_ ->]%attr_inv_ok & H)).
  apply bind_inv_ok in H as (ws & ? & [-> Hws]%current_arrays_inv & H).
  apply bind_inv_ok in H as (updated & w2 & Hcall & H).
  unfold call_fit in Hcall.
  match type of Hcall with context [_fit ?a ?g] =>
    exists a; destruct (_fit a g) as [u g'] eqn:Hfit end.
  injection Hcall as <- <-.
  do 2 (apply bind_inv_ok in H as ([] & ? & Hs & H); unfold assign in Hs;
        injection Hs as <-).
  unfold mret, M_ret in H. injection H as <- <-.
  split; [by destruct (is_fit (self w))|]. done.
Qed.

Lemma fit_partial_consistent ints uf itf epochs verbose w r w' :
  fit_partial ints uf itf epochs verbose w = (inr r, w') → observed_consistent (self w').
Proof.
  intros (w1 & a & Hinit & _ & _ & ->)%fit_partial_inv.
  assert (observed_consistent (self w1)) as Hc.
  { destruct (is_fit (self w)).
    - apply bind_inv_ok in Hinit as ([] & w0 & H1 & H2).
      eapply init_features_consistent; [exact H2|].
      by eapply init_interactions_consistent.
    - by eapply init_all_consistent. }
  revert Hc. by apply observed_consistent_ext.
Qed.

Lemma fit_eq ints uf itf epochs verbose :
  fit ints uf itf epochs verbose =
  (assign _reset_state;; fit_partial ints uf itf epochs verbose;; mret RetNone).
Proof. reflexivity. Qed.

(** C8.  After a successful [fit] or [fit_partial] the observed-sets agree
    with the stored interaction array: a pair (u, i) is in the array
    exactly when i is among the items recorded for u, in the plain
    dictionary and in the typed one. *)
Theorem observed_sets_consistent ints uf itf epochs verbose w r w' :
  fit_partial ints uf itf epochs verbose w = (inr r, w') ∨
  fit ints uf itf epochs verbose w = (inr r, w') →
  observed_consistent (self w').
Proof.
  intros [H|H]; [by eapply fit_partial_consistent|].
  rewrite fit_eq in H.
  apply bind_inv_ok in H as ([] & w0 & _ & H).
  apply bind_inv_ok in H as (r' & w1 & H1 & H2).
  unfold mret, M_ret in H2. injection H2 as _ <-. by eapply fit_partial_consistent.
Qed.

(** *** Schema mismatches *)

Lemma indexed_by_index users items (s s' : RankFM) :
  index s' = index s → indexed_by users items s → indexed_by users items s'.
Proof. unfold indexed_by. by intros ->. Qed.

Lemma init_features_ok_covers users items uf itf w w' :
  indexed_by users items (self w) →
  _init_features uf itf w = (inr (), w') →
  (∀ t, uf = Some t → covers users t) ∧ (∀ t, itf = Some t → covers items t).
Proof.
  intros (_ & _ & Hu & Hi & Hux & Hix) H.
  unfold _init_features in H. run H; simplify_eq; split; intros t' [= <-];
    apply array_equal_sorted_covers; congruence.
Qed.

Lemma init_features_raises users items uf itf w e w' :
  indexed_by users items (self w) →
  _init_features uf itf w = (inl e, w') → e = KeyError.
Proof.
  intros (_ & _ & Hu & Hi & Hux & Hix) H.
  unfold _init_features in H. run H; simplify_eq; done.
Qed.

Lemma init_features_mismatch users items uf itf w :
  indexed_by users items (self w) →
  schema_mismatch users items uf itf →
  ∃ w', _init_features uf itf w = (inl KeyError, w').
Proof.
  intros Hix Hbad.
  destruct (_init_features uf itf w) as [[e|[]] w'] eqn:Hrun.
  - apply (init_features_raises _ _ _ _ _ _ _ Hix) in Hrun as ->. eauto.
  - apply (init_features_ok_covers _ _ _ _ _ _ Hix) in Hrun as [Hu Hi].
    destruct Hbad as [(t & -> & Hn)|(t & -> & Hn)]; exfalso; eauto.
Qed.

(** On the index built from the interactions themselves every identifier
    is found, so the mapping step succeeds. *)
Lemma init_interactions_fresh ints w :
  user_to_index (index (self w)) = Some (reverse_index (np_sort (np_unique (ints.*1)))) →
  item_to_index (index (self w)) = Some (reverse_index (np_sort (np_unique (ints.*2)))) →
  ∃ w', _init_interactions ints w = (inr (), w').
Proof.
  intros Hu Hi.
  assert (∀ col : list Z, Forall (λ k, is_Some (reverse_index (np_sort (np_unique col)) !! k)) col)
    as Hfound.
  { intros col. apply Forall_forall. intros k Hk.
    apply reverse_index_is_Some. by rewrite np_sort_elem, np_unique_elem. }
  destruct (astype_int32_series_map _ _ (Hfound (ints.*1))) as (us & Hus & _).
  destruct (astype_int32_series_map _ _ (Hfound (ints.*2))) as (its & Hits & _).
  destruct (_init_interactions ints w) as [[e|[]] w'] eqn:Hrun; [exfalso|eauto].
  unfold _init_interactions in Hrun. run Hrun; simplify_eq; congruence.
Qed.

Lemma init_all_mismatch ints uf itf w :
  schema_mismatch (np_sort (np_unique (ints.*1))) (np_sort (np_unique (ints.*2))) uf itf →
  ∃ w', _init_all ints uf itf w = (inl KeyError, w') ∧
        store (self w') = store (self w) ∧ engine_calls w' = engine_calls w.
Proof.
  intros Hbad. unfold _init_all.
  do 8 (rewrite bind_run; cbn).
  match goal with |- context [(_init_interactions ints ≫= _) ?W] => set (w8 := W) end.
  destruct (init_interactions_fresh ints w8) as [w1 H1]; [done..|].
  pose proof (init_interactions_keeps ints w8) as K1.
  rewrite H1 in K1. cbn in K1. injection K1 as _ Kix Kst _ _ _ _ Kcalls.
  destruct (init_features_mismatch (np_sort (np_unique (ints.*1)))
              (np_sort (np_unique (ints.*2))) uf itf w1) as [w2 H2]; [|exact Hbad|].
  { unfold indexed_by. rewrite Kix. by repeat split. }
  pose proof (init_features_keeps uf itf w1) as K2.
  rewrite H2 in K2. cbn in K2. injection K2 as _ _ Kst2 _ _ _ _ _ Kcalls2.
  exists w2. rewrite (bind_ok _ _ _ _ _ H1), (bind_raise _ _ _ _ _ H2).
  split; [done|]. split; congruence.
Qed.

Lemma fit_partial_unfit_mismatch ints uf itf epochs verbose w :
  is_fit (self w) = false →
  schema_mismatch (np_sort (np_unique (ints.*1))) (np_sort (np_unique (ints.*2))) uf itf →
  ∃ w', fit_partial ints uf itf epochs verbose w = (inl KeyError, w') ∧
        store (self w') = store (self w) ∧ engine_calls w' = engine_calls w.
Proof.
  intros Hfit Hbad. unfold fit_partial. rewrite bind_run. cbn. rewrite Hfit.
  destruct (init_all_mismatch ints uf itf w Hbad) as (w' & H1 & ? & ?).
  exists w'. split; [|done]. by apply bind_raise.
Qed.

(** C1 (amended).  When a supplied feature table does not cover exactly the
    known identifiers, [fit_partial] raises before the trainer is called and
    leaves the six weight arrays as they were; [fit] raises before the
    trainer is called as well, but it has reset the state first, so it
    leaves the six weight arrays cleared.  The known identifiers are those
    of the existing index for a model that is already fit, and those of the
    interactions otherwise. *)
Theorem schema_mismatch_raises_before_training ints uf itf epochs verbose w :
  (∀ users items,
     is_fit (self w) = true →
     indexed_by users items (self w) →
     schema_mismatch users items uf itf →
     ∃ e w', fit_partial ints uf itf epochs verbose w = (inl e, w') ∧
             store (self w') = store (self w) ∧ engine_calls w' = engine_calls w) ∧
  (schema_mismatch (np_sort (np_unique (ints.*1))) (np_sort (np_unique (ints.*2))) uf itf →
     (is_fit (self w) = false →
      ∃ w', fit_partial ints uf itf epochs verbose w = (inl KeyError, w') ∧
            store (self w') = store (self w) ∧ engine_calls w' = engine_calls w) ∧
     (∃ w', fit ints uf itf epochs verbose w = (inl KeyError, w') ∧
            store (self w') = no_weights ∧ engine_calls w' = engine_calls w)).
Proof.
  split.
  - intros users items Hfit Hix Hbad. unfold fit_partial.
    rewrite bind_run. cbn. rewrite Hfit.
    pose proof (init_interactions_keeps ints w) as K1.
    destruct (_init_interactions ints w) as [[e|[]] w1] eqn:H1;
      cbn in K1; injection K1 as _ Kix Kst _ _ _ _ Kcalls.
    + exists e, w1. split; [|done].
      apply bind_raise. by apply bind_raise.
    + destruct (init_features_mismatch users items uf itf w1) as [w2 H2]; [|exact Hbad|].
      { by apply (indexed_by_index _ _ (self w)). }
      pose proof (init_features_keeps uf itf w1) as K2.
      rewrite H2 in K2. cbn in K2. injection K2 as _ _ Kst2 _ _ _ _ _ Kcalls2.
      exists KeyError, w2. split; [|split; congruence].
      apply bind_raise. rewrite (bind_ok _ _ _ _ _ H1). exact H2.
  - intros Hbad. split; [intros Hfit; by apply fit_partial_unfit_mismatch|].
    unfold fit. rewrite bind_run. cbn.
    match goal with |- context [(fit_partial _ _ _ _ _ ≫= _) ?W] => set (w0 := W) end.
    destruct (fit_partial_unfit_mismatch ints uf itf epochs verbose w0) as (w' & H1 & ? & ?);
      [done|exact Hbad|].
    exists w'. split; [|done]. by apply bind_raise.
Qed.

End claims.

Section fitting.
Context {rng : Type} `{!Engine rng}.
Implicit Types w : world rng.

(** *** Return values *)

Lemma fit_partial_returns_self ints uf itf epochs verbose w r w' :
  fit_partial ints uf itf epochs verbose w = (inr r, w') → r = RetSelf.
Proof.
  unfold fit_partial. intros H.
  rewrite bind_run in H. cbn in H.
  apply bind_inv_ok in H as ([] & w1 & _ & H).
  unfold current_arrays in H. run H. by injection H as <- _.
Qed.

(** C3.  [fit] runs [fit_partial] on the reset state and then falls off the
    end of its body: it hands back [None] where [fit_partial] hands back the
    fitted object, and never the object itself. *)
Theorem fit_returns_none ints uf itf epochs verbose w :
  fit ints uf itf epochs verbose w =
  map_outcome (λ _, RetNone)
    (fit_partial ints uf itf epochs verbose
       (World (_reset_state (self w)) (np_random w) (engine_calls w))) ∧
  (fit ints uf itf epochs verbose w).1 ≠ inr RetSelf ∧
  ∀ r, (fit_partial ints uf itf epochs verbose w).1 = inr r → r = RetSelf.
Proof.
  split_and!.
  - unfold fit, map_outcome. rewrite bind_run. cbn. rewrite bind_run.
    by destruct (fit_partial _ _ _ _ _ _) as [[e|r] w1].
  - unfold fit. rewrite bind_run. cbn. rewrite bind_run.
    by destruct (fit_partial _ _ _ _ _ _) as [[e|r] w1].
  - intros r Hr. destruct (fit_partial ints uf itf epochs verbose w) as [r' w'] eqn:Hrun.
    cbn in Hr. subst r'. by eapply fit_partial_returns_self.
Qed.

(** *** Resuming and rebuilding *)

Lemma store_of_current (s : RankFM) wi wif vu vi vuf vif :
  w_i (store s) = Some wi → w_if (store s) = Some wif →
  v_u (store s) = Some vu → v_i (store s) = Some vi →
  v_uf (store s) = Some vuf → v_if (store s) = Some vif →
  store_of (Arrays wi wif vu vi vuf vif) = store s.
Proof. destruct s as [? ? ? [] ?]. cbn. by intros -> -> -> -> -> ->. Qed.

(** C4.  On a model that is already fit, a successful [fit_partial] calls
    the trainer once, with the weight arrays exactly as they stood at entry
    and with the random state untouched (nothing was re-drawn); the index
    mappings and the hyperparameters are the same afterwards, and the new
    weights are the trainer's result.  A [fit], in contrast, depends on the
    prior object only through its hyperparameters: prior indexes, features
    and weights are discarded before training. *)
Theorem fit_partial_resumes_and_fit_rebuilds ints uf itf epochs verbose w :
  (∀ r w', is_fit (self w) = true →
     fit_partial ints uf itf epochs verbose w = (inr r, w') →
     ∃ a, engine_calls w' = engine_calls w ++ [CallFit a] ∧
          store_of (fa_weights a) = store (self w) ∧
          index (self w') = index (self w) ∧
          hyper (self w') = hyper (self w) ∧
          store (self w') = store_of (_fit a (np_random w)).1 ∧
          np_random w' = (_fit a (np_random w)).2) ∧
  (∀ w0, hyper (self w0) = hyper (self w) →
         np_random w0 = np_random w → engine_calls w0 = engine_calls w →
         fit ints uf itf epochs verbose w0 = fit ints uf itf epochs verbose w).
Proof.
  split.
  - intros r w' Hfit H. unfold fit_partial in H.
    rewrite bind_run in H. cbn in H. rewrite Hfit in H.
    apply bind_inv_ok in H as ([] & w2 & Hinit & H).
    apply bind_inv_ok in Hinit as ([] & w1 & H1 & H2).
    pose proof (init_interactions_keeps ints w) as K1.
    rewrite H1 in K1. cbn in K1. injection K1 as Khp Kix Kst _ _ _ Krng Kcalls.
    pose proof (init_features_keeps uf itf w1) as K2.
    rewrite H2 in K2. cbn in K2. injection K2 as Khp2 Kix2 Kst2 _ _ _ _ Krng2 Kcalls2.
    unfold current_arrays in H. run H. injection H as _ <-. cbn.
    eexists. split_and!.
    + rewrite Kcalls2, Kcalls. reflexivity.
    + cbn. rewrite <- Kst, <- Kst2. by apply store_of_current.
    + congruence.
    + congruence.
    + rewrite <- Krng, <- Krng2.
      by match goal with Hf : _fit _ _ = _ |- _ => rewrite Hf end.
    + rewrite <- Krng, <- Krng2.
      by match goal with Hf : _fit _ _ = _ |- _ => rewrite Hf end.
  - intros w0 Hhp Hrng Hcalls. unfold fit. rewrite !bind_run. cbn.
    unfold _reset_state. by rewrite Hhp, Hrng, Hcalls.
Qed.

End fitting.

(** *** Initial weights without side features *)






Lemma astype_int32_fresh (col : list Z) :
  ∃ vs, astype_int32 (series_map (reverse_index (np_sort (np_unique col))) col) = inr vs.
Proof.
  destruct (astype_int32_series_map (reverse_index (np_sort (np_unique col))) col)
    as (vs & Hvs & _); [|eauto].
  apply Forall_forall. intros k Hk.
  apply reverse_index_is_Some. by rewrite np_sort_elem, np_unique_elem.
Qed.

(** Forward execution in the goal: the next step reads an attribute whose
    value is known. *)
Ltac step_attr H := erewrite bind_ok; [|apply attr_ok; cbn; exact H].

Section sampler_stream.
Context {rng : Type} `{E : !Engine rng}.

Lemma normal_vector_length loc scale m g :
  length (normal_vector loc scale m g).1 = m.
Proof.
  revert g. induction m as [|m IH]; intros g; cbn; [done|].
  destruct (np_random_normal loc scale g) as [x g1].
  specialize (IH g1). destruct (normal_vector loc scale m g1) as [xs g2].
  cbn in *. by rewrite IH.
Qed.

Lemma normal_rows_shape loc scale n m g :
  length (normal_rows loc scale n m g).1 = n ∧
  Forall (λ row, length row = m) (normal_rows loc scale n m g).1.
Proof.
  revert g. induction n as [|n IH]; intros g; cbn; [by split|].
  pose proof (normal_vector_length loc scale m g) as Hv.
  destruct (normal_vector loc scale m g) as [r g1].
  specialize (IH g1). destruct (normal_rows loc scale n m g1) as [rs g2].
  cbn in *. destruct IH as [IH1 IH2]. split; [by rewrite IH1|by constructor].
Qed.

Lemma np_zeros2_shape n m : has_shape (np_zeros2 n m) n m.
Proof.
  unfold has_shape, np_zeros2, np_zeros. cbn. rewrite length_replicate.
  split_and!; [done..|]. apply Forall_replicate. by rewrite length_replicate.
Qed.

Lemma astype_float32_shape cols rows n m :
  cols = m → length rows = n → Forall (λ row, length row = m) rows →
  has_shape (nd_astype_float32 (Ndarray2 cols rows)) n m.
Proof.
  intros -> <- H. unfold has_shape, nd_astype_float32, vec_astype_float32. cbn.
  rewrite length_fmap. split_and!; [done..|].
  apply Forall_fmap. eapply Forall_impl; [exact H|]. intros row. cbn.
  by rewrite length_fmap.
Qed.






End sampler_stream.

Section fresh.
Context {rng : Type} `{!Engine rng}.
Implicit Types w : world rng.






End fresh.

Section serving.
Context {rng : Type} `{E : !Engine rng}.
Implicit Types w : world rng.

(** *** Unknown identifiers in a resumed fit *)

(** An interaction whose user is not in the index makes the mapping step
    raise: the cast to [int32] comes before [dropna()]. *)
Lemma init_interactions_unknown_user ints w u2i :
  user_to_index (index (self w)) = Some u2i →
  (∃ r, r ∈ ints ∧ u2i !! r.1 = None) →
  ∃ w', _init_interactions ints w = (inl ValueError, w') ∧ store (self w') = store (self w).
Proof.
  intros Hu (r & Hr & Hnone).
  pose proof (init_interactions_keeps ints w) as K.
  destruct (_init_interactions ints w) as [[e|[]] w'] eqn:Hrun;
    cbn in K; injection K as _ _ Kst _ _ _ _ _.
  - exists w'. split; [|done]. f_equal. f_equal.
    unfold _init_interactions in Hrun. run Hrun; simplify_eq.
    + by apply astype_int32_inl in Hrun1 as [-> _].
    + exfalso. apply astype_int32_inr in Hrun1 as (raw & Hraw & _).
      assert (None ∈ series_map u2i ints.*1) as Hin.
      { unfold series_map. apply list_elem_of_fmap. exists r.1. split; [done|].
        by apply list_elem_of_fmap_2. }
      rewrite Hraw in Hin. apply list_elem_of_fmap in Hin as (? & ? & _). done.
    + exfalso. apply astype_int32_inr in Hrun1 as (raw & Hraw & _).
      assert (None ∈ series_map u2i ints.*1) as Hin.
      { unfold series_map. apply list_elem_of_fmap. exists r.1. split; [done|].
        by apply list_elem_of_fmap_2. }
      rewrite Hraw in Hin. apply list_elem_of_fmap in Hin as (? & ? & _). done.
  - exfalso. unfold _init_interactions in Hrun. run Hrun; simplify_eq.
    apply astype_int32_inr in Hrun1 as (raw & Hraw & _).
    assert (None ∈ series_map u2i ints.*1) as Hin.
    { unfold series_map. apply list_elem_of_fmap. exists r.1. split; [done|].
      by apply list_elem_of_fmap_2. }
    rewrite Hraw in Hin. apply list_elem_of_fmap in Hin as (? & ? & _). done.
Qed.

(** *** Cold-start policies *)

Lemma py_eq_str_false v s : v ≠ PyStr s → py_eq_str v s = false.
Proof.
  intros Hv. destruct v as [| | |t]; try done. cbn.
  apply bool_decide_eq_false. congruence.
Qed.

(** C10.  On a fitted model, [predict] and [recommend_for_users] called
    with a [cold_start] that is neither 'nan' nor 'drop' raise [ValueError];
    by then the engine has been called (the call is on record), and the
    object and the random state are as before the call. *)
Theorem invalid_cold_start_raises_after_engine_call
    pairs users n_items filter_previous cold_start w :
  trained (self w) →
  cold_start ≠ PyStr "nan" → cold_start ≠ PyStr "drop" →
  (∃ a, predict pairs cold_start w =
        (inl ValueError, World (self w) (np_random w) (engine_calls w ++ [CallPredict a]))) ∧
  (∃ a, recommend_for_users users n_items filter_previous cold_start w =
        (inl ValueError, World (self w) (np_random w) (engine_calls w ++ [CallRecommend a]))).
Proof.
  intros (Hfit & [? Hu] & [? Hi] & [? Hit] & [? Hnb] & [? Hxu] & [? Hxi] &
          [? H1] & [? H2] & [? H3] & [? H4] & [? H5] & [? H6]) Hnan%py_eq_str_false
         Hdrop%py_eq_str_false.
  split.
  - destruct (predict pairs cold_start w) as [r w'] eqn:H.
    unfold predict, current_arrays in H. rewrite Hnan, Hdrop in H.
    run H; simplify_eq; try congruence.
    all: eexists; reflexivity.
  - destruct (recommend_for_users users n_items filter_previous cold_start w)
      as [r w'] eqn:H.
    unfold recommend_for_users, current_arrays in H. rewrite Hnan, Hdrop in H.
    run H; simplify_eq; try congruence.
    all: try (eexists; reflexivity).
    all: unfold dataframe in *; case_bool_decide; simplify_eq.
    all: eexists; reflexivity.
Qed.









End serving.

(** ** The negative sampler *)

Section sampler.
Variable draw : nat → Z.
Variable user_items : gmap Z (list Z).
Variable u : Z.

(** The first draw from position [k] on that is not observed, when one is
    known to come within [d] draws. *)
Lemma first_unobserved_draw (d k : nat) :
  (draw (k + d) ∉ observed_set user_items u) →
  ∃ n, (k ≤ n ≤ k + d)%nat ∧ (draw n ∉ observed_set user_items u) ∧
       ∀ j, (k ≤ j < n)%nat → draw j ∈ observed_set user_items u.
Proof.
  revert k. induction d as [|d IH]; intros k Hd.
  - exists k. rewrite Nat.add_0_r in Hd. split_and!; [lia|lia|done|]. intros j ?. lia.
  - destruct (decide (draw k ∈ observed_set user_items u)) as [Hk|Hk].
    + destruct (IH (S k)) as (n & Hn & Hun & Hbefore).
      { by replace (S k + d)%nat with (k + S d)%nat by lia. }
      exists n. split_and!; [lia|lia|done|].
      intros j Hj. destruct (decide (j = k)) as [->|]; [done|]. apply Hbefore. lia.
    + exists k. split_and!; [lia|lia|done|]. intros j ?. lia.
Qed.

(** The loop returns the first unobserved draw once the fuel reaches it,
    and nothing before. *)
Lemma sample_negative_first (n : nat) (fuel k : nat) :
  (k ≤ n)%nat →
  (∀ j, (k ≤ j < n)%nat → draw j ∈ observed_set user_items u) →
  (draw n ∉ observed_set user_items u) →
  ((n - k < fuel)%nat → sample_negative draw user_items u fuel k = Some (draw n, S n)) ∧
  ((fuel ≤ n - k)%nat → sample_negative draw user_items u fuel k = None).
Proof.
  revert k. induction fuel as [|fuel IH]; intros k Hk Hbefore Hn.
  - split; [lia|done].
  - cbn. destruct (decide (k = n)) as [->|Hne].
    + rewrite bool_decide_eq_false_2 by done. split; [done|lia].
    + rewrite bool_decide_eq_true_2 by (apply Hbefore; lia).
      destruct (IH (S k)) as [IH1 IH2]; [lia| |done|].
      { intros j ?. apply Hbefore. lia. }
      split; intros ?; [apply IH1|apply IH2]; lia.
Qed.

(** C9.  Let the random source yield item indices only and let every item
    index keep coming up.  For a user whose observed-set leaves out some
    item, a call to the sampler at any point [k] of the source returns,
    given fuel to reach it, the first drawn index that is not observed: the
    result is an item index outside the observed-set, every draw consumed
    before it was rejected for being observed, and with less fuel the loop
    returns nothing rather than an observed index. *)
Theorem sample_negative_never_observed (item_idx : list Z) :
  (∀ k, draw k ∈ item_idx) →
  (∀ i k, i ∈ item_idx → ∃ k', (k ≤ k')%nat ∧ draw k' = i) →
  (∃ i, i ∈ item_idx ∧ i ∉ observed_set user_items u) →
  ∀ k, ∃ n,
    (k ≤ n)%nat ∧
    draw n ∈ item_idx ∧
    (draw n ∉ observed_set user_items u) ∧
    (∀ j, (k ≤ j < n)%nat → draw j ∈ observed_set user_items u) ∧
    ∀ fuel,
      ((n - k < fuel)%nat →
       sample_negative draw user_items u fuel k = Some (draw n, S n)) ∧
      ((fuel ≤ n - k)%nat → sample_negative draw user_items u fuel k = None).
Proof.
  intros Hrange Hfair (i & Hi & Hfree) k.
  destruct (Hfair i k Hi) as (k' & Hk' & Hdraw).
  destruct (first_unobserved_draw (k' - k) k) as (n & Hn & Hun & Hbefore).
  { replace (k + (k' - k))%nat with k' by lia. by rewrite Hdraw. }
  exists n. split_and!; [lia|apply Hrange|done|done|].
  intros fuel. apply sample_negative_first; [lia|done|done].
Qed.

End sampler.

(** ** The properties on the reference engine *)

Import Reference.

Lemma fitted_indexed : indexed_by [7; 8; 9] [100; 101; 102; 103] (self fitted).
Proof. repeat split; by vm_compute. Qed.

Lemma fitted_trained : trained (self fitted).
Proof. unfold trained. vm_compute. repeat split; by eexists. Qed.

Lemma short_table_mismatch users items :
  length users ≠ 1%nat → schema_mismatch users items (Some short_table) None.
Proof.
  intros Hlen. left. exists short_table. split; [done|].
  unfold covers. cbn. intros Hp%Permutation_length. cbn in Hp. congruence.
Qed.

Lemma schema_mismatch_raises_before_training_witness :
  (∃ e w', fit_partial log1 (Some short_table) None 1 false fitted = (inl e, w') ∧
           store (self w') = store (self fitted) ∧ engine_calls w' = engine_calls fitted) ∧
  (∃ w', fit log1 (Some short_table) None 1 false fitted = (inl KeyError, w') ∧
         store (self w') = no_weights ∧ engine_calls w' = engine_calls fitted).
Proof.
  destruct (schema_mismatch_raises_before_training log1 (Some short_table) None 1 false fitted)
    as [Hpartial Hfit].
  split.
  - apply (Hpartial [7; 8; 9] [100; 101; 102; 103]).
    + reflexivity.
    + apply fitted_indexed.
    + by apply short_table_mismatch.
  - apply Hfit. apply short_table_mismatch. by vm_compute.
Defined.

(** C1, as stated, fails for [fit]: on a fitted model a [fit] with a user
    table that lists one of the three users raises [KeyError], and the item
    weights that were four zeros before the call are gone after it. *)
Lemma fit_schema_mismatch_clears_weights :
  (fit log1 (Some short_table) None 1 false fitted).1 = inl KeyError ∧
  w_i (store (self fitted)) = Some [f0; f0; f0; f0] ∧
  store (self (fit log1 (Some short_table) None 1 false fitted).2) = no_weights.
Proof. by vm_compute. Qed.


(** C2.  On the model fitted on users 7, 8, 9, a [fit_partial] over one known
    pair trains, but with a second pair whose user 10 is not in the index it
    raises [ValueError] instead of dropping that pair and training on the
    first. *)
Theorem fit_partial_unknown_user_raises :
  user_to_index (index (self fitted)) = Some (reverse_index [7; 8; 9]) ∧
  reverse_index [7; 8; 9] !! 10 = None ∧
  (fit_partial [(7, 103)] None None 1 false fitted).1 = inr RetSelf ∧
  (fit_partial [(7, 103); (10, 100)] None None 1 false fitted).1 = inl ValueError.
Proof. by vm_compute. Qed.

Example fit_returns_none_example :
  (fit log1 None None 1 false unfit).1 = inr RetNone ∧
  (fit_partial log1 None None 1 false unfit).1 = inr RetSelf.
Proof. by vm_compute. Qed.

Lemma fit_partial_resumes_and_fit_rebuilds_witness :
  ∃ a, engine_calls resumed = engine_calls fitted ++ [CallFit a] ∧
       store_of (fa_weights a) = store (self fitted) ∧
       index (self resumed) = index (self fitted) ∧
       hyper (self resumed) = hyper (self fitted) ∧
       store (self resumed) = store_of (_fit a (np_random fitted)).1 ∧
       np_random resumed = (_fit a (np_random fitted)).2.
Proof.
  apply (proj1 (fit_partial_resumes_and_fit_rebuilds [(7, 103)] None None 1 false fitted)
           RetSelf resumed).
  - reflexivity.
  - by vm_compute.
Defined.

Lemma observed_sets_consistent_witness : observed_consistent (self fitted).
Proof.
  apply (observed_sets_consistent log1 None None 1 false unfit RetNone fitted).
  right. by vm_compute.
Defined.

Lemma invalid_cold_start_raises_after_engine_call_witness :
  (∃ a, predict [(7, 100)] (PyStr "zero") fitted =
        (inl ValueError,
         World (self fitted) (np_random fitted) (engine_calls fitted ++ [CallPredict a]))) ∧
  (∃ a, recommend_for_users [7] 2 false (PyStr "zero") fitted =
        (inl ValueError,
         World (self fitted) (np_random fitted) (engine_calls fitted ++ [CallRecommend a]))).
Proof.
  apply invalid_cold_start_raises_after_engine_call.
  - apply fitted_trained.
  - discriminate.
  - discriminate.
Defined.


Lemma round_robin_range k : round_robin k ∈ [0; 1; 2; 3].
Proof.
  unfold round_robin. pose proof (Nat.mod_upper_bound k 4 ltac:(lia)) as Hk.
  destruct (k `mod` 4)%nat as [|[|[|[|n]]]]; try lia;
    cbn; rewrite !elem_of_cons; auto.
Qed.

Lemma round_robin_fair i k : i ∈ [0; 1; 2; 3] → ∃ k', (k ≤ k')%nat ∧ round_robin k' = i.
Proof.
  intros Hi. exists (Z.to_nat i + k * 4)%nat. split; [lia|].
  unfold round_robin. rewrite Nat.Div0.mod_add.
  assert (0 ≤ i < 4) as Hr.
  { rewrite !elem_of_cons, elem_of_nil in Hi. lia. }
  rewrite Nat.mod_small by lia. lia.
Qed.

Lemma sample_negative_never_observed_witness :
  ∃ n, (0 ≤ n)%nat ∧
    round_robin n ∈ [0; 1; 2; 3] ∧
    (round_robin n ∉ observed_set {[0 := [0; 1]]} 0) ∧
    (∀ j, (0 ≤ j < n)%nat → round_robin j ∈ observed_set {[0 := [0; 1]]} 0) ∧
    ∀ fuel,
      ((n - 0 < fuel)%nat →
       sample_negative round_robin {[0 := [0; 1]]} 0 fuel 0 = Some (round_robin n, S n)) ∧
      ((fuel ≤ n - 0)%nat → sample_negative round_robin {[0 := [0; 1]]} 0 fuel 0 = None).
Proof.
  apply (sample_negative_never_observed round_robin {[0 := [0; 1]]} 0 [0; 1; 2; 3]).
  - apply round_robin_range.
  - apply round_robin_fair.
  - exists 2. split; [rewrite !elem_of_cons; auto|].
    unfold observed_set. rewrite lookup_singleton_eq. cbn.
    rewrite !not_elem_of_cons. split_and!; [done..|apply not_elem_of_nil].
Defined.

(** * Further properties of the class *)

(** ** Construction and serving before a fit *)

(** X1.  The constructor accepts every documented combination: the
    hyperparameters are stored as given, every index, data and weight
    attribute is [None], and the model is not fit. *)
Theorem init_accepts_valid_hyperparameters n r sg lr ls le :
  1 ≤ n → is_non_negative r → is_positive sg → is_positive lr →
  ls = "constant" ∨ ls = "invscaling" → is_positive le →
  __init__ (PyInt n) (PyFloat r) (PyFloat sg) (PyFloat lr) (PyStr ls) (PyFloat le) =
  inr (Model (Hyper n r sg lr ls le) no_indexes no_data no_weights false).
Proof.
  intros Hn Hr%float_ge0_spec Hsg%float_gt0_spec Hlr%float_gt0_spec Hls Hle%float_gt0_spec.
  unfold __init__. rewrite (proj2 (Z.leb_le 1 n) Hn), Hr, Hsg, Hlr, Hle. cbn.
  destruct Hls as [-> | ->]; reflexivity.
Qed.

Lemma init_accepts_valid_hyperparameters_witness :
  __init__ (PyInt 2) (PyFloat f64_0_01) (PyFloat f64_0_1) (PyFloat f64_0_1)
           (PyStr "constant") (PyFloat f64_0_25) =
  inr (Model (Hyper 2 f64_0_01 f64_0_1 f64_0_1 "constant" f64_0_25)
             no_indexes no_data no_weights false).
Proof.
  apply init_accepts_valid_hyperparameters; cbn; auto. lia.
Defined.

Section more.
Context {rng : Type} `{E : !Engine rng}.
Implicit Types w : world rng.

Lemma world_eta w : World (self w) (np_random w) (engine_calls w) = w.
Proof. by destruct w. Qed.

(** Observations that every initialisation step leaves alone. *)
Lemma keeps_compose {A X Y} (P : world rng → X) (f : X → Y) (m : M rng A) :
  keeps P m → keeps (λ w, f (P w)) m.
Proof. intros H w. by rewrite H. Qed.

Lemma init_all_keeps ints uf itf :
  keeps (λ w : world rng, (hyper (self w), is_fit (self w), engine_calls w))
        (_init_all ints uf itf).
Proof.
  unfold _init_all. do 8 (apply keeps_bind; [keeps_step|intros ?]).
  apply keeps_bind; [|intros ?; apply keeps_bind; [|intros ?]].
  - apply (keeps_compose _ (λ '(h, _, _, f, _, _, _, c), (h, f, c)) _
             (init_interactions_keeps ints)).
  - apply (keeps_compose _ (λ '(h, _, _, f, _, _, _, _, c), (h, f, c)) _
             (init_features_keeps uf itf)).
  - apply (keeps_compose _ (λ '(h, _, _, f, c), (h, f, c)) _
             (init_weights_keeps uf itf)).
Qed.

Lemma fit_partial_split ints uf itf epochs verbose w :
  fit_partial ints uf itf epochs verbose w =
  (prepare ints uf itf ≫= λ _, train epochs verbose) w.
Proof.
  unfold fit_partial, prepare, train. rewrite !bind_run. unfold gets.
  rewrite !bind_run. by destruct (is_fit (self w)).
Qed.

Lemma prepare_keeps ints uf itf :
  keeps (λ w : world rng, (hyper (self w), is_fit (self w), engine_calls w))
        (prepare ints uf itf).
Proof.
  unfold prepare. apply keeps_bind; [keeps_step|]. intros [].
  - apply keeps_bind; [|intros ?].
    + apply (keeps_compose _ (λ '(h, _, _, f, _, _, _, c), (h, f, c)) _
               (init_interactions_keeps ints)).
    + apply (keeps_compose _ (λ '(h, _, _, f, _, _, _, _, c), (h, f, c)) _
               (init_features_keeps uf itf)).
  - apply init_all_keeps.
Qed.

(** The trainer half raises only while reading the attributes: the state
    is then untouched. *)
Lemma train_raises epochs verbose w e w' :
  train epochs verbose w = (inl e, w') → w' = w.
Proof.
  unfold train, current_arrays. intros H. run H; by simplify_eq.
Qed.

(** A [fit_partial] that raises has not called the trainer and has left
    the flag and the hyperparameters as they were. *)
Lemma fit_partial_raises_frame ints uf itf epochs verbose w e w' :
  fit_partial ints uf itf epochs verbose w = (inl e, w') →
  is_fit (self w') = is_fit (self w) ∧ hyper (self w') = hyper (self w) ∧
  engine_calls w' = engine_calls w.
Proof.
  rewrite fit_partial_split, bind_run. intros H.
  pose proof (prepare_keeps ints uf itf w) as K.
  destruct (prepare ints uf itf w) as [[e1|[]] w1]; cbn in K;
    injection K as Kh Kf Kc.
  - by injection H as <- <-.
  - apply train_raises in H as ->. done.
Qed.

(** X3.  Given that the engine's trainer returns whenever it is called, a
    [fit] that raises has raised while it initialised the model: the
    trainer has not been called, the hyperparameters are kept and the model
    is not fit, so [predict] and [recommend_for_users] on it raise
    [AssertionError], also when the model was fit before the call. *)
Theorem failed_fit_leaves_model_unfit ints uf itf epochs verbose w e w' :
  fit ints uf itf epochs verbose w = (inl e, w') →
  is_fit (self w') = false ∧ hyper (self w') = hyper (self w) ∧
  engine_calls w' = engine_calls w ∧
  ∀ pairs users n_items filter_previous cold_start,
    predict pairs cold_start w' = (inl AssertionError, w') ∧
    recommend_for_users users n_items filter_previous cold_start w' =
    (inl AssertionError, w').
Proof.
  rewrite fit_eq, bind_run. unfold assign at 1. rewrite bind_run. intros H.
  match type of H with context [fit_partial _ _ _ _ _ ?W] => set (w0 := W) in * end.
  destruct (fit_partial ints uf itf epochs verbose w0) as [[e1|r] w1] eqn:Hrun;
    [|discriminate].
  injection H as <- <-.
  apply fit_partial_raises_frame in Hrun as (Hf & Hh & Hc).
  assert (is_fit (self w1) = false) as Hunfit by (by rewrite Hf).
  split_and!; [done|by rewrite Hh|by rewrite Hc|].
  intros. unfold predict, recommend_for_users.
  rewrite !bind_run. unfold gets. rewrite Hunfit. cbn [py_assert].
  rewrite !bind_run. done.
Qed.

End more.

Lemma failed_fit_leaves_model_unfit_witness :
  is_fit (self (fit log1 (Some short_table) None 1 false fitted).2) = false ∧
  hyper (self (fit log1 (Some short_table) None 1 false fitted).2) = hyper (self fitted) ∧
  engine_calls (fit log1 (Some short_table) None 1 false fitted).2 = engine_calls fitted ∧
  ∀ pairs users n_items filter_previous cold_start,
    predict pairs cold_start (fit log1 (Some short_table) None 1 false fitted).2 =
    (inl AssertionError, (fit log1 (Some short_table) None 1 false fitted).2) ∧
    recommend_for_users users n_items filter_previous cold_start
      (fit log1 (Some short_table) None 1 false fitted).2 =
    (inl AssertionError, (fit log1 (Some short_table) None 1 false fitted).2).
Proof.
  apply (failed_fit_leaves_model_unfit log1 (Some short_table) None 1 false fitted KeyError).
  by vm_compute.
Defined.

(** ** What a successful fit stores *)

Section stored.
Context {rng : Type} `{E : !Engine rng}.
Implicit Types w : world rng.

Lemma init_all_eq ints uf itf w :
  _init_all ints uf itf w =
  (_init_interactions ints;; _init_features uf itf;; _init_weights uf itf)
    (World (with_index (λ _, fresh_index ints) (self w)) (np_random w) (engine_calls w)).
Proof.
  unfold _init_all. do 8 (rewrite bind_run; cbn [assign self np_random engine_calls]).
  by destruct w as [[? [] ? ? ?] ? ?].
Qed.

(** The exact result of a successful [_init_interactions]: the positions
    of the identifiers, cast to [int32], and the two dictionaries built
    from them; the index is not touched. *)
Lemma init_interactions_ok ints w w' :
  _init_interactions ints w = (inr (), w') →
  ∃ u2i i2i pu pi,
    user_to_index (index (self w)) = Some u2i ∧
    item_to_index (index (self w)) = Some i2i ∧
    series_map u2i (ints.*1) = Some <$> pu ∧
    series_map i2i (ints.*2) = Some <$> pi ∧
    index (self w') = index (self w) ∧
    let rows := (λ r, (wrap32 r.1, wrap32 r.2)) <$> zip (wrap32 <$> pu) (wrap32 <$> pi) in
    interactions (data (self w')) = Some (IArray rows) ∧
    user_items_py (data (self w')) = Some (observed_sets rows) ∧
    user_items_nb (data (self w')) = Some (observed_sets rows).
Proof.
  intros H. pose proof (init_interactions_keeps ints w) as K.
  rewrite H in K. cbn in K. injection K as _ Kix _ _ _ _ _ _.
  unfold _init_interactions in H. run H. injection H as <-.
  apply astype_int32_inr in Hrun0 as (pu & Hpu & ->).
  apply astype_int32_inr in Hrun2 as (pi & Hpi & ->).
  eexists _, _, pu, pi. split_and!; [done..|]. cbn.
  rewrite typed_dict_copy, dropna_astype_int32_full. done.
Qed.

(** Through a successful [fit_partial]: the mapping step ran on a state
    [w0] whose index is the final one (the existing index of a fitted
    model, the index built from the interactions otherwise), and what it
    stored is what the model holds. *)
Lemma fit_partial_ok_inv ints uf itf epochs verbose w r w' :
  fit_partial ints uf itf epochs verbose w = (inr r, w') →
  ∃ w0 w1,
    _init_interactions ints w0 = (inr (), w1) ∧
    index (self w0) = (if is_fit (self w) then index (self w) else fresh_index ints) ∧
    index (self w') = index (self w0) ∧
    interactions (data (self w')) = interactions (data (self w1)) ∧
    user_items_py (data (self w')) = user_items_py (data (self w1)) ∧
    user_items_nb (data (self w')) = user_items_nb (data (self w1)).
Proof.
  intros (w2 & a & Hinit & _ & _ & ->)%fit_partial_inv. cbn.
  assert (∃ w0 w1, _init_interactions ints w0 = (inr (), w1) ∧
            index (self w0) = (if is_fit (self w) then index (self w) else fresh_index ints) ∧
            ∃ r1 r2, (r1 = None ∨ _init_weights uf itf r2 = (inr (), w2) ∧ r1 = Some r2) ∧
            _init_features uf itf w1 =
              (inr (), match r1 with Some x => x | None => w2 end))
    as (w0 & w1 & H1 & Hix & r1 & r2 & Hw & H2).
  { destruct (is_fit (self w)).
    - apply bind_inv_ok in Hinit as ([] & w1 & H1 & H2).
      exists w, w1. split_and!; [done..|]. exists None, w2. by split; [left|].
    - rewrite init_all_eq in Hinit.
      apply bind_inv_ok in Hinit as ([] & w1 & H1 & Hinit).
      apply bind_inv_ok in Hinit as ([] & w3 & H2 & H3).
      eexists _, w1. split_and!; [exact H1|done|]. exists (Some w3), w3.
      split; [right|]; done. }
  exists w0, w1. split; [done|]. split; [done|].
  pose proof (init_interactions_keeps ints w0) as K1.
  rewrite H1 in K1. cbn in K1. injection K1 as _ K1 _ _ _ _ _ _.
  pose proof (init_features_keeps uf itf w1) as K2.
  rewrite H2 in K2. cbn in K2. injection K2 as _ K2 _ _ K2a K2b K2c _ _.
  destruct Hw as [-> | [H3 ->]].
  - split_and!; congruence.
  - pose proof (init_weights_keeps uf itf r2) as K3.
    rewrite H3 in K3. cbn in K3. injection K3 as _ K3 K3d _ _.
    rewrite K3d. split_and!; congruence.
Qed.

Lemma fit_ok_inv ints uf itf epochs verbose w r w' :
  fit ints uf itf epochs verbose w = (inr r, w') →
  ∃ w0 w1,
    _init_interactions ints w0 = (inr (), w1) ∧
    index (self w0) = fresh_index ints ∧
    index (self w') = fresh_index ints ∧
    interactions (data (self w')) = interactions (data (self w1)) ∧
    user_items_py (data (self w')) = user_items_py (data (self w1)) ∧
    user_items_nb (data (self w')) = user_items_nb (data (self w1)).
Proof.
  rewrite fit_eq. intros H.
  apply bind_inv_ok in H as ([] & w0 & Hreset & H).
  unfold assign in Hreset. injection Hreset as <-.
  apply bind_inv_ok in H as (r' & w1 & H1 & H2).
  unfold mret, M_ret in H2. injection H2 as _ <-.
  apply fit_partial_ok_inv in H1 as (wa & wb & Ha & Hix & Hix' & Hd).
  cbn in Hix. exists wa, wb. split_and!; [done|done|congruence|apply Hd..].
Qed.

End stored.

(** ** The index *)

Lemma index_ids_elem (col : list Z) x : x ∈ np_sort (np_unique col) ↔ x ∈ col.
Proof. by rewrite np_sort_elem, np_unique_elem. Qed.

Lemma index_ids_NoDup (col : list Z) : NoDup (np_sort (np_unique col)).
Proof. unfold np_sort. rewrite merge_sort_Permutation. apply np_unique_NoDup. Qed.

Lemma ascending_NoDup_strict (l : list Z) :
  StronglySorted Z.le l → NoDup l → StronglySorted Z.lt l.
Proof.
  induction 1 as [|x l Hl IH Hx]; intros Hnd; [constructor|].
  apply NoDup_cons in Hnd as [Hx' Hnd]. constructor; [by apply IH|].
  rewrite Forall_forall in Hx |- *. intros y Hy.
  specialize (Hx y Hy). assert (x ≠ y) by (by intros ->). lia.
Qed.

(** The identifiers of an index are strictly ascending. *)
Lemma index_ids_ascending (col : list Z) : StronglySorted Z.lt (np_sort (np_unique col)).
Proof.
  apply ascending_NoDup_strict; [|apply index_ids_NoDup].
  unfold np_sort. apply StronglySorted_merge_sort; apply _.
Qed.

Lemma index_ids_length (col : list Z) : (length (np_sort (np_unique col)) ≤ length col)%nat.
Proof.
  apply submseteq_length, NoDup_submseteq; [apply index_ids_NoDup|].
  intros x. by rewrite index_ids_elem.
Qed.

(** Identifier to position and position to identifier are inverse to each
    other when no identifier is listed twice. *)
Lemma reverse_index_inverse (ids : list Z) id p :
  NoDup ids →
  reverse_index ids !! id = Some p ↔ ∃ k : nat, p = Z.of_nat k ∧ ids !! k = Some id.
Proof.
  intros Hnd. split.
  - intros [Hp Hk]%reverse_index_Some. exists (Z.to_nat p). split; [lia|done].
  - intros (k & -> & Hk). unfold reverse_index. apply elem_of_list_to_map_1.
    + rewrite fst_zip; [done|]. rewrite np_arange_length. lia.
    + apply list_elem_of_lookup. exists k. apply lookup_zip_with_Some.
      exists id, (Z.of_nat k). split_and!; [done..|].
      apply np_arange_lookup. by eapply lookup_lt_Some.
Qed.

Lemma reverse_index_None (ids : list Z) id : reverse_index ids !! id = None ↔ id ∉ ids.
Proof.
  unfold reverse_index. rewrite <- not_elem_of_list_to_map.
  rewrite fst_zip; [done|]. rewrite np_arange_length. lia.
Qed.

Section index.
Context {rng : Type} `{E : !Engine rng}.
Implicit Types w : world rng.

(** X4.  After a successful [fit] the index lists the distinct users (items)
    of the interactions in strictly ascending order, the identifier at
    position [k] maps to [k] and nothing else does, and an identifier that
    is not in the interactions maps to nothing. *)
Theorem fit_builds_inverse_index ints uf itf epochs verbose w r w' :
  fit ints uf itf epochs verbose w = (inr r, w') →
  ∃ users items u2i i2i,
    index_to_user (index (self w')) = Some users ∧
    index_to_item (index (self w')) = Some items ∧
    user_to_index (index (self w')) = Some u2i ∧
    item_to_index (index (self w')) = Some i2i ∧
    StronglySorted Z.lt users ∧ StronglySorted Z.lt items ∧
    (∀ id, id ∈ users ↔ id ∈ ints.*1) ∧ (∀ id, id ∈ items ↔ id ∈ ints.*2) ∧
    (∀ id p, u2i !! id = Some p ↔ ∃ k : nat, p = Z.of_nat k ∧ users !! k = Some id) ∧
    (∀ id p, i2i !! id = Some p ↔ ∃ k : nat, p = Z.of_nat k ∧ items !! k = Some id) ∧
    (∀ id, u2i !! id = None ↔ id ∉ ints.*1) ∧ (∀ id, i2i !! id = None ↔ id ∉ ints.*2).
Proof.
  intros (w0 & w1 & _ & _ & Hix & _)%fit_ok_inv.
  eexists _, _, _, _. rewrite Hix. cbn. split_and!; try reflexivity.
  - apply index_ids_ascending.
  - apply index_ids_ascending.
  - apply index_ids_elem.
  - apply index_ids_elem.
  - intros id p. apply reverse_index_inverse, index_ids_NoDup.
  - intros id p. apply reverse_index_inverse, index_ids_NoDup.
  - intros id. by rewrite reverse_index_None, index_ids_elem.
  - intros id. by rewrite reverse_index_None, index_ids_elem.
Qed.

(** X5.  [_init_interactions] on a model with an index returns exactly when
    every user and item identifier of the interactions is in the index, and
    raises [ValueError] otherwise: no row is ever dropped. *)
Theorem init_interactions_succeeds_iff_known ints w u2i i2i :
  user_to_index (index (self w)) = Some u2i →
  item_to_index (index (self w)) = Some i2i →
  (Forall (λ r, is_Some (u2i !! r.1) ∧ is_Some (i2i !! r.2)) ints →
   ∃ w', _init_interactions ints w = (inr (), w')) ∧
  (¬ Forall (λ r, is_Some (u2i !! r.1) ∧ is_Some (i2i !! r.2)) ints →
   ∃ w', _init_interactions ints w = (inl ValueError, w')).
Proof.
  intros Hu Hi.
  assert (∀ (m : gmap Z Z) (col : list Z),
            None ∈ series_map m col ↔ ¬ Forall (λ k, is_Some (m !! k)) col) as Hnone.
  { intros m col. unfold series_map. rewrite list_elem_of_fmap, <- Exists_Forall_neg.
    2: { intros k. destruct (m !! k); [left; eauto|right; by intros [? ?]]. }
    rewrite Exists_exists. split.
    - intros (k & Hk & Hin). exists k. split; [done|]. rewrite <- Hk. by intros [? ?].
    - intros (k & Hin & Hk). exists k. split; [|done].
      destruct (m !! k); [destruct Hk; eauto|done]. }
  assert (Forall (λ r, is_Some (u2i !! r.1) ∧ is_Some (i2i !! r.2)) ints ↔
          Forall (λ k, is_Some (u2i !! k)) (ints.*1) ∧
          Forall (λ k, is_Some (i2i !! k)) (ints.*2)) as Hsplit.
  { rewrite !Forall_fmap, <- Forall_and. done. }
  rewrite Hsplit. clear Hsplit.
  destruct (_init_interactions ints w) as [[e|[]] w'] eqn:Hrun.
  - assert (e = ValueError ∧
            ¬ (Forall (λ k, is_Some (u2i !! k)) (ints.*1) ∧
               Forall (λ k, is_Some (i2i !! k)) (ints.*2))) as [-> Hbad].
    { unfold _init_interactions in Hrun. run Hrun; simplify_eq.
      - apply astype_int32_inl in Hrun1 as [-> Hn%Hnone]. tauto.
      - apply astype_int32_inl in Hrun3 as [-> Hn%Hnone]. tauto. }
    split; [tauto|eauto].
  - split; [eauto|]. intros Hbad. exfalso. apply Hbad.
    apply init_interactions_ok in Hrun
      as (u2i' & i2i' & pu & pi & Hu' & Hi' & Hpu & Hpi & _).
    simplify_eq. split.
    + destruct (decide (Forall (λ k, is_Some (u2i !! k)) ints.*1)) as [|Hn]; [done|].
      apply Hnone in Hn. rewrite Hpu in Hn.
      apply list_elem_of_fmap in Hn as (? & ? & _). done.
    + destruct (decide (Forall (λ k, is_Some (i2i !! k)) ints.*2)) as [|Hn]; [done|].
      apply Hnone in Hn. rewrite Hpi in Hn.
      apply list_elem_of_fmap in Hn as (? & ? & _). done.
Qed.

End index.

Lemma fit_builds_inverse_index_witness :
  ∃ users items u2i i2i,
    index_to_user (index (self fitted)) = Some users ∧
    index_to_item (index (self fitted)) = Some items ∧
    user_to_index (index (self fitted)) = Some u2i ∧
    item_to_index (index (self fitted)) = Some i2i ∧
    StronglySorted Z.lt users ∧ StronglySorted Z.lt items ∧
    (∀ id, id ∈ users ↔ id ∈ log1.*1) ∧ (∀ id, id ∈ items ↔ id ∈ log1.*2) ∧
    (∀ id p, u2i !! id = Some p ↔ ∃ k : nat, p = Z.of_nat k ∧ users !! k = Some id) ∧
    (∀ id p, i2i !! id = Some p ↔ ∃ k : nat, p = Z.of_nat k ∧ items !! k = Some id) ∧
    (∀ id, u2i !! id = None ↔ id ∉ log1.*1) ∧ (∀ id, i2i !! id = None ↔ id ∉ log1.*2).
Proof.
  apply (fit_builds_inverse_index log1 None None 1 false unfit RetNone fitted).
  by vm_compute.
Defined.

Lemma init_interactions_succeeds_iff_known_witness :
  (Forall (λ r, is_Some (reverse_index [7; 8; 9] !! r.1) ∧
                is_Some (reverse_index [100; 101; 102; 103] !! r.2)) [(7, 103); (5, 100)] →
   ∃ w', _init_interactions [(7, 103); (5, 100)] fitted = (inr (), w')) ∧
  (¬ Forall (λ r, is_Some (reverse_index [7; 8; 9] !! r.1) ∧
                  is_Some (reverse_index [100; 101; 102; 103] !! r.2)) [(7, 103); (5, 100)] →
   ∃ w', _init_interactions [(7, 103); (5, 100)] fitted = (inl ValueError, w')).
Proof.
  apply (init_interactions_succeeds_iff_known [(7, 103); (5, 100)] fitted); by vm_compute.
Defined.

(** ** Serving *)

Section serving_frame.
Context {rng : Type} `{E : !Engine rng}.
Implicit Types w : world rng.

(** X6.  Whatever the arguments and whatever the outcome, [predict] and
    [recommend_for_users] leave the model and the random state as they
    were, and call the engine at most once. *)
Theorem serving_never_changes_model pairs users n_items filter_previous cold_start w :
  (self (predict pairs cold_start w).2 = self w ∧
   np_random (predict pairs cold_start w).2 = np_random w ∧
   (engine_calls (predict pairs cold_start w).2 = engine_calls w ∨
    ∃ a, engine_calls (predict pairs cold_start w).2 = engine_calls w ++ [CallPredict a])) ∧
  (self (recommend_for_users users n_items filter_previous cold_start w).2 = self w ∧
   np_random (recommend_for_users users n_items filter_previous cold_start w).2
     = np_random w ∧
   (engine_calls (recommend_for_users users n_items filter_previous cold_start w).2
      = engine_calls w ∨
    ∃ a, engine_calls (recommend_for_users users n_items filter_previous cold_start w).2
           = engine_calls w ++ [CallRecommend a])).
Proof.
  split.
  - destruct (predict pairs cold_start w) as [r w'] eqn:H. cbn [snd].
    unfold predict, current_arrays in H.
    destruct (py_eq_str cold_start "nan"), (py_eq_str cold_start "drop");
      run H; unfold mret, M_ret in *; simplify_eq; cbn; eauto.
  - destruct (recommend_for_users users n_items filter_previous cold_start w)
      as [r w'] eqn:H. cbn [snd].
    unfold recommend_for_users, current_arrays in H.
    destruct (py_eq_str cold_start "nan"), (py_eq_str cold_start "drop");
      run H; unfold mret, M_ret in *; simplify_eq; cbn; eauto.
Qed.

End serving_frame.

(** ** Serving a fitted model *)

Section fit_then_serve.
Context {rng : Type} `{E : !Engine rng}.
Implicit Types w : world rng.

Lemma fit_inv ints uf itf epochs verbose w r w' :
  fit ints uf itf epochs verbose w = (inr r, w') →
  ∃ r', fit_partial ints uf itf epochs verbose
          (World (_reset_state (self w)) (np_random w) (engine_calls w)) = (inr r', w').
Proof.
  rewrite fit_eq. intros H.
  apply bind_inv_ok in H as ([] & w0 & Hreset & H).
  unfold assign in Hreset. injection Hreset as <-.
  apply bind_inv_ok in H as (r' & w1 & H1 & H2).
  unfold mret, M_ret in H2. injection H2 as _ <-. eauto.
Qed.

(** The trainer half, when it returns: what it read and what it wrote. *)
Lemma train_ok_inv epochs verbose w r w' :
  train epochs verbose w = (inr r, w') →
  ∃ fa,
    x_uf (data (self w)) = Some (fa_x_uf fa) ∧
    x_if (data (self w)) = Some (fa_x_if fa) ∧
    user_items_nb (data (self w)) = Some (fa_user_items fa) ∧
    w' = World (set_is_fit true (with_store (λ _, store_of (_fit fa (np_random w)).1)
                                   (self w)))
               (_fit fa (np_random w)).2 (engine_calls w ++ [CallFit fa]).
Proof.
  unfold train, current_arrays. intros H. run H.
  unfold mret, M_ret in H. injection H as _ <-.
  match goal with Hf : _fit ?a _ = _ |- _ => exists a; rewrite Hf end.
  cbn. done.
Qed.

(** What a model holds after a successful [fit_partial]: the flag, the
    mappings, and the arrays the trainer saw and returned. *)
Lemma fit_partial_serving_state ints uf itf epochs verbose w r w1 :
  fit_partial ints uf itf epochs verbose w = (inr r, w1) →
  ∃ fa g u2i i2i,
    last (engine_calls w1) = Some (CallFit fa) ∧
    np_random w1 = (_fit fa g).2 ∧
    is_fit (self w1) = true ∧
    store (self w1) = store_of (_fit fa g).1 ∧
    user_to_index (index (self w1)) = Some u2i ∧
    item_to_index (index (self w1)) = Some i2i ∧
    x_uf (data (self w1)) = Some (fa_x_uf fa) ∧
    x_if (data (self w1)) = Some (fa_x_if fa) ∧
    user_items_nb (data (self w1)) = Some (fa_user_items fa).
Proof.
  intros H. pose proof H as Hinv.
  apply fit_partial_ok_inv in Hinv as (wa & wb & Ha & _ & Hix & _).
  apply init_interactions_ok in Ha as (u2i & i2i & _ & _ & Hu & Hi & _).
  rewrite fit_partial_split in H.
  apply bind_inv_ok in H as ([] & w2 & _ & H).
  apply train_ok_inv in H as (fa & Hxuf & Hxif & Hnb & ->).
  exists fa, (np_random w2), u2i, i2i. cbn in *.
  rewrite last_snoc, Hix. done.
Qed.

Lemma has_nan_series_map (m : gmap Z Z) col :
  has_nan (series_map m col) = true ↔ ∃ k, k ∈ col ∧ m !! k = None.
Proof.
  unfold has_nan, series_map. rewrite bool_decide_eq_true, list_elem_of_fmap.
  split; intros (k & ? & ?); exists k; done.
Qed.

Lemma cell_float32_passed (P : Prop) via c :
  (via = true ↔ P) → passed_as P c (cell_float32 via c).
Proof.
  intros H. destruct c as [z|]; [|done]. cbn. split; intros HP.
  - destruct via; [|done]. destruct HP. by apply H.
  - apply H in HP. by rewrite HP.
Qed.

(** X7.  After a successful [fit] or [fit_partial], and given that the
    engine's scorer returns, [predict] with [cold_start] 'nan' returns for
    every list of pairs, known or not, exactly what the engine answers.
    The engine is called once, with the feature matrices the trainer was
    given, the weights the trainer returned, and one [float32] pair per
    input pair: NaN for an unknown identifier, for a known one its index
    position rounded to [float32] (through [float64] when some identifier
    of the input is unknown). *)
Theorem predict_after_fit ints uf itf epochs verbose w r w1 :
  fit_partial ints uf itf epochs verbose w = (inr r, w1) ∨
  fit ints uf itf epochs verbose w = (inr r, w1) →
  ∃ fa g u2i i2i,
    last (engine_calls w1) = Some (CallFit fa) ∧
    np_random w1 = (_fit fa g).2 ∧
    user_to_index (index (self w1)) = Some u2i ∧
    item_to_index (index (self w1)) = Some i2i ∧
    ∀ pairs, ∃ a,
      predict pairs (PyStr "nan") w1 =
        (inr (_predict a),
         World (self w1) (np_random w1) (engine_calls w1 ++ [CallPredict a])) ∧
      pa_x_uf a = fa_x_uf fa ∧ pa_x_if a = fa_x_if fa ∧
      pa_weights a = (_fit fa g).1 ∧
      length (pa_pairs a) = length pairs ∧
      ∀ (k : nat) p, pairs !! k = Some p →
        ∃ x y, pa_pairs a !! k = Some (x, y) ∧
          passed_as (∃ q, q ∈ pairs ∧ (u2i !! q.1 = None ∨ i2i !! q.2 = None))
                    (u2i !! p.1) x ∧
          passed_as (∃ q, q ∈ pairs ∧ (u2i !! q.1 = None ∨ i2i !! q.2 = None))
                    (i2i !! p.2) y.
Proof.
  intros H.
  assert (∃ w0 r0, fit_partial ints uf itf epochs verbose w0 = (inr r0, w1))
    as (w0 & r0 & H0).
  { destruct H as [H | [r' H]%fit_inv]; eauto. }
  apply fit_partial_serving_state in H0
    as (fa & g & u2i & i2i & Hlast & Hg & Hfit & Hst & Hu & Hi & Hxuf & Hxif & _).
  exists fa, g, u2i, i2i. split_and!; [done..|]. intros pairs.
  assert (current_arrays w1 = (inr (_fit fa g).1, w1)) as Hws.
  { unfold current_arrays.
    do 6 (erewrite bind_ok; [|apply attr_ok; cbn; rewrite Hst; reflexivity]).
    unfold mret, M_ret. by destruct ((_fit fa g).1). }
  eexists (PredictArgs _ _ _ _). split_and!.
  - unfold predict. rewrite bind_run. unfold gets. rewrite Hfit. cbn [py_assert].
    rewrite bind_run. cbn [mret M_ret].
    step_attr Hu. step_attr Hi. step_attr Hxuf. step_attr Hxif.
    erewrite bind_ok; [|exact Hws]. reflexivity.
  - reflexivity.
  - reflexivity.
  - reflexivity.
  - cbn. unfold frame_float32, series_map.
    rewrite length_fmap, length_zip, !length_fmap. lia.
  - intros k [u i] Hk. cbn [pa_pairs]. unfold frame_float32.
    rewrite list_lookup_fmap.
    erewrite (proj2 (lookup_zip_with_Some _ _ _ _ _)).
    2:{ eexists _, _. split; [reflexivity|]. unfold series_map.
        rewrite !list_lookup_fmap, Hk. done. }
    cbn. eexists _, _. split; [reflexivity|].
    assert (has_nan (zip (series_map u2i pairs.*1) (series_map i2i pairs.*2)).*1
            || has_nan (zip (series_map u2i pairs.*1) (series_map i2i pairs.*2)).*2 = true
            ↔ ∃ q, q ∈ pairs ∧ (u2i !! q.1 = None ∨ i2i !! q.2 = None)) as Hvia.
    { rewrite fst_zip, snd_zip by (unfold series_map; rewrite !length_fmap; lia).
      rewrite orb_true_iff, !has_nan_series_map. split.
      - intros [(v & Hv & Hn) | (v & Hv & Hn)];
          apply list_elem_of_fmap in Hv as (q & -> & Hq); exists q; auto.
      - intros (q & Hq & [Hn | Hn]); [left|right].
        + exists q.1. split; [|done]. apply list_elem_of_fmap. by exists q.
        + exists q.2. split; [|done]. apply list_elem_of_fmap. by exists q. }
    split; by apply cell_float32_passed.
Qed.

(** X8.  After a successful [fit], and given that the engine's recommender
    returns, [recommend_for_users] with [cold_start] 'nan' calls the engine
    once, with the observed sets and feature matrices the trainer was
    given, the weights it returned, and one [float32] user index per
    requested user: NaN for a user that is not in the interactions, for a
    known one its position among the sorted users rounded to [float32]
    (through [float64] when some requested user is unknown).  When the
    engine answers with one row per user, the table returned is labelled by
    exactly the requested users, in the order given, and row [k] is the
    engine's row [k] with each cell translated back through the sorted
    item identifiers. *)
Theorem recommend_after_fit ints uf itf epochs verbose w r w1 :
  fit ints uf itf epochs verbose w = (inr r, w1) →
  ∃ fa g,
    last (engine_calls w1) = Some (CallFit fa) ∧
    np_random w1 = (_fit fa g).2 ∧
    ∀ users n_items filter_previous, ∃ a,
      engine_calls (recommend_for_users users n_items filter_previous (PyStr "nan") w1).2
        = engine_calls w1 ++ [CallRecommend a] ∧
      ra_user_items a = fa_user_items fa ∧ ra_n_items a = n_items ∧
      ra_filter_previous a = filter_previous ∧
      ra_x_uf a = fa_x_uf fa ∧ ra_x_if a = fa_x_if fa ∧
      ra_weights a = (_fit fa g).1 ∧
      length (ra_users a) = length users ∧
      (∀ (k : nat) u, users !! k = Some u →
         ∃ x, ra_users a !! k = Some x ∧
           passed_as (∃ v, v ∈ users ∧ v ∉ ints.*1)
                     (reverse_index (np_sort (np_unique (ints.*1))) !! u) x) ∧
      (length (_recommend_for_users a) = length users →
       ∃ t, recommend_for_users users n_items filter_previous (PyStr "nan") w1 =
              (inr t, World (self w1) (np_random w1)
                            (engine_calls w1 ++ [CallRecommend a])) ∧
            t.*1 = users ∧
            t.*2 = (λ row : list (option Z), item_at (np_sort (np_unique (ints.*2))) <$> row)
                     <$> _recommend_for_users a).
Proof.
  intros H. pose proof H as Hix.
  apply fit_ok_inv in Hix as (_ & _ & _ & _ & Hix & _).
  apply fit_inv in H as [r' H].
  apply fit_partial_serving_state in H
    as (fa & g & u2i & i2i & Hlast & Hg & Hfit & Hst & Hu & Hi & Hxuf & Hxif & Hnb).
  exists fa, g. split_and!; [done..|]. intros users n_items filter_previous.
  assert (current_arrays w1 = (inr (_fit fa g).1, w1)) as Hws.
  { unfold current_arrays.
    do 6 (erewrite bind_ok; [|apply attr_ok; cbn; rewrite Hst; reflexivity]).
    unfold mret, M_ret. by destruct ((_fit fa g).1). }
  assert (user_to_index (index (self w1))
            = Some (reverse_index (np_sort (np_unique (ints.*1))))) as Hu'
    by (by rewrite Hix).
  assert (index_to_item (index (self w1)) = Some (np_sort (np_unique (ints.*2)))) as Hi'
    by (by rewrite Hix).
  set (a := RecommendArgs
              (series_float32 (series_map (reverse_index (np_sort (np_unique (ints.*1))))
                                          users))
              (fa_user_items fa) n_items filter_previous
              (fa_x_uf fa) (fa_x_if fa) (_fit fa g).1).
  assert (recommend_for_users users n_items filter_previous (PyStr "nan") w1 =
          match dataframe (_recommend_for_users a) users with
          | inr df =>
              (inr ((λ r : Z * list (option Z),
                       (r.1, item_at (np_sort (np_unique (ints.*2))) <$> r.2)) <$> df),
               World (self w1) (np_random w1) (engine_calls w1 ++ [CallRecommend a]))
          | inl e =>
              (inl e,
               World (self w1) (np_random w1) (engine_calls w1 ++ [CallRecommend a]))
          end) as Hrun.
  { unfold recommend_for_users.
    rewrite bind_run. unfold gets. rewrite Hfit. cbn [py_assert].
    rewrite bind_run. cbn [mret M_ret].
    step_attr Hu'. step_attr Hnb. step_attr Hxuf. step_attr Hxif.
    erewrite bind_ok; [|exact Hws].
    rewrite bind_run. unfold call_recommend. fold a.
    rewrite bind_run. unfold lift.
    destruct (dataframe (_recommend_for_users a) users) as [e|df]; [done|].
    erewrite bind_ok; [|apply attr_ok; cbn; exact Hi']. reflexivity. }
  exists a. split_and!; try reflexivity.
  - rewrite Hrun. by destruct (dataframe _ _).
  - cbn. unfold series_float32, series_map. by rewrite !length_fmap.
  - intros k u Hk. cbn [ra_users a]. unfold series_float32.
    rewrite list_lookup_fmap. unfold series_map at 2.
    rewrite list_lookup_fmap, Hk. cbn. eexists. split; [reflexivity|].
    apply cell_float32_passed. rewrite has_nan_series_map.
    split; intros (v & Hv & Hn); exists v; (split; [done|]).
    + apply reverse_index_None in Hn. by rewrite index_ids_elem in Hn.
    + apply reverse_index_None. by rewrite index_ids_elem.
  - intros Hlen. rewrite Hrun. unfold dataframe.
    rewrite bool_decide_eq_true_2 by exact Hlen.
    eexists. split; [reflexivity|]. split.
    + rewrite <- list_fmap_compose.
      rewrite <- (fst_zip users (_recommend_for_users a)) at 2 by lia.
      by apply list_fmap_ext.
    + rewrite <- list_fmap_compose.
      rewrite <- (snd_zip users (_recommend_for_users a)) at 2 by lia.
      rewrite <- list_fmap_compose. by apply list_fmap_ext.
Qed.

End fit_then_serve.

Lemma predict_after_fit_witness :
  ∃ fa g u2i i2i,
    last (engine_calls fitted) = Some (CallFit fa) ∧
    np_random fitted = (_fit fa g).2 ∧
    user_to_index (index (self fitted)) = Some u2i ∧
    item_to_index (index (self fitted)) = Some i2i ∧
    ∀ pairs, ∃ a,
      predict pairs (PyStr "nan") fitted =
        (inr (_predict a),
         World (self fitted) (np_random fitted) (engine_calls fitted ++ [CallPredict a])) ∧
      pa_x_uf a = fa_x_uf fa ∧ pa_x_if a = fa_x_if fa ∧
      pa_weights a = (_fit fa g).1 ∧
      length (pa_pairs a) = length pairs ∧
      ∀ (k : nat) p, pairs !! k = Some p →
        ∃ x y, pa_pairs a !! k = Some (x, y) ∧
          passed_as (∃ q, q ∈ pairs ∧ (u2i !! q.1 = None ∨ i2i !! q.2 = None))
                    (u2i !! p.1) x ∧
          passed_as (∃ q, q ∈ pairs ∧ (u2i !! q.1 = None ∨ i2i !! q.2 = None))
                    (i2i !! p.2) y.
Proof.
  apply (predict_after_fit log1 None None 1 false unfit RetNone fitted).
  right. by vm_compute.
Defined.

Lemma recommend_after_fit_witness :
  ∃ fa g,
    last (engine_calls fitted) = Some (CallFit fa) ∧
    np_random fitted = (_fit fa g).2 ∧
    ∀ users n_items filter_previous, ∃ a,
      engine_calls (recommend_for_users users n_items filter_previous (PyStr "nan") fitted).2
        = engine_calls fitted ++ [CallRecommend a] ∧
      ra_user_items a = fa_user_items fa ∧ ra_n_items a = n_items ∧
      ra_filter_previous a = filter_previous ∧
      ra_x_uf a = fa_x_uf fa ∧ ra_x_if a = fa_x_if fa ∧
      ra_weights a = (_fit fa g).1 ∧
      length (ra_users a) = length users ∧
      (∀ (k : nat) u, users !! k = Some u →
         ∃ x, ra_users a !! k = Some x ∧
           passed_as (∃ v, v ∈ users ∧ v ∉ log1.*1)
                     (reverse_index (np_sort (np_unique (log1.*1))) !! u) x) ∧
      (length (_recommend_for_users a) = length users →
       ∃ t, recommend_for_users users n_items filter_previous (PyStr "nan") fitted =
              (inr t, World (self fitted) (np_random fitted)
                            (engine_calls fitted ++ [CallRecommend a])) ∧
            t.*1 = users ∧
            t.*2 = (λ row : list (option Z), item_at (np_sort (np_unique (log1.*2))) <$> row)
                     <$> _recommend_for_users a).
Proof.
  apply (recommend_after_fit log1 None None 1 false unfit RetNone fitted).
  by vm_compute.
Defined.

(** ** The stored interactions and observed sets *)

Lemma lex_le_transitive : Transitive lex_le.
Proof. intros a b c. unfold lex_le. lia. Qed.

Lemma lex_le_total : Total lex_le.
Proof. intros a b. unfold lex_le. lia. Qed.

Lemma sort_values_sorted rows : StronglySorted lex_le (sort_values rows).
Proof.
  unfold sort_values.
  apply (@StronglySorted_merge_sort _ lex_le _ lex_le_transitive lex_le_total).
Qed.

(** The items of one user in rows sorted by user and item are ascending. *)
Lemma items_of_sorted u rows :
  StronglySorted lex_le rows → StronglySorted Z.le (items_of u rows).
Proof.
  unfold items_of. induction 1 as [|a l Hl IH Ha]; [constructor|].
  rewrite filter_cons. case_decide as Hu; [|done]. cbn. constructor; [done|].
  rewrite Forall_forall in Ha. apply Forall_forall. intros y Hy.
  apply list_elem_of_fmap in Hy as (b & -> & Hb).
  apply list_elem_of_filter in Hb as [Hbu Hb].
  specialize (Ha b Hb). unfold lex_le in Ha. lia.
Qed.

Lemma items_of_Permutation u rows rows' :
  rows ≡ₚ rows' → items_of u rows ≡ₚ items_of u rows'.
Proof. intros H. unfold items_of. by rewrite H. Qed.

Lemma items_of_nonempty u rows : u ∈ rows.*1 → items_of u rows ≠ [].
Proof.
  intros Hu Hnil. apply list_elem_of_fmap in Hu as ([u' i] & -> & Hin).
  cbn in Hnil. assert (i ∈ items_of u' rows) as Hi by (by apply items_of_elem).
  rewrite Hnil in Hi. by apply elem_of_nil in Hi.
Qed.

(** The dictionary of observed items: a user has an entry exactly when a
    row names it; the entry is not empty, ascending, and holds each item
    once per row of that user. *)
Lemma observed_sets_lookup rows u :
  (observed_sets rows !! u = None ↔ u ∉ rows.*1) ∧
  ∀ items, observed_sets rows !! u = Some items →
    items ≠ [] ∧ StronglySorted Z.le items ∧ items ≡ₚ items_of u rows.
Proof.
  unfold observed_sets. rewrite groupby_user_lookup.
  assert (sort_values rows ≡ₚ rows) as Hp by apply merge_sort_Permutation.
  destruct (decide (u ∈ (sort_values rows).*1)) as [Hu|Hu]; rewrite Hp in Hu.
  - split; [split; [done|by intros []]|]. intros items [= <-]. split_and!.
    + apply items_of_nonempty. by rewrite Hp.
    + apply items_of_sorted, sort_values_sorted.
    + by apply items_of_Permutation.
  - split; [done|]. by intros items.
Qed.

Section rows.
Context {rng : Type} `{E : !Engine rng}.
Implicit Types w : world rng.

(** X9.  After a successful [fit] or [fit_partial] the two dictionaries of
    observed items are equal; a user index has an entry exactly when a
    stored row names it, and its entry is not empty, ascending, and a
    rearrangement of the items of that user's rows, repeats included. *)
Theorem observed_sets_sorted ints uf itf epochs verbose w r w' :
  fit_partial ints uf itf epochs verbose w = (inr r, w') ∨
  fit ints uf itf epochs verbose w = (inr r, w') →
  ∃ rows d,
    interactions (data (self w')) = Some (IArray rows) ∧
    user_items_py (data (self w')) = Some d ∧
    user_items_nb (data (self w')) = Some d ∧
    ∀ u, (d !! u = None ↔ u ∉ rows.*1) ∧
         ∀ items, d !! u = Some items →
           items ≠ [] ∧ StronglySorted Z.le items ∧ items ≡ₚ items_of u rows.
Proof.
  intros H.
  assert (∃ w0 w1, _init_interactions ints w0 = (inr (), w1) ∧
            interactions (data (self w')) = interactions (data (self w1)) ∧
            user_items_py (data (self w')) = user_items_py (data (self w1)) ∧
            user_items_nb (data (self w')) = user_items_nb (data (self w1)))
    as (w0 & w1 & Hinit & -> & -> & ->).
  { destruct H as [H|H].
    - apply fit_partial_ok_inv in H as (w0 & w1 & ? & _ & _ & ?). eauto.
    - apply fit_ok_inv in H as (w0 & w1 & ? & _ & _ & ?). eauto. }
  apply init_interactions_ok in Hinit
    as (u2i & i2i & pu & pi & _ & _ & _ & _ & _ & Hrows & Hpy & Hnb).
  eexists _, _. split_and!; [exact Hrows|exact Hpy|exact Hnb|].
  intros u. apply observed_sets_lookup.
Qed.

(** X10.  After a successful [fit] on at most 2^31 interactions, the stored
    array has one row per interaction, in the order given, and row [k]
    holds the positions of the user and the item of interaction [k] in the
    sorted lists of distinct users and items. *)
Theorem fit_stores_positions ints uf itf epochs verbose w r w' :
  Z.of_nat (length ints) ≤ 2 ^ 31 →
  fit ints uf itf epochs verbose w = (inr r, w') →
  ∃ rows,
    interactions (data (self w')) = Some (IArray rows) ∧
    length rows = length ints ∧
    ∀ (k : nat) u i, ints !! k = Some (u, i) →
      ∃ p q : nat,
        rows !! k = Some (Z.of_nat p, Z.of_nat q) ∧
        np_sort (np_unique (ints.*1)) !! p = Some u ∧
        np_sort (np_unique (ints.*2)) !! q = Some i.
Proof.
  intros Hbound (w0 & w1 & Hinit & Hix & _ & -> & _)%fit_ok_inv.
  apply init_interactions_ok in Hinit
    as (u2i & i2i & pu & pi & Hu & Hi & Hpu & Hpi & _ & Hrows & _).
  rewrite Hix in Hu, Hi. cbn in Hu, Hi. injection Hu as <-. injection Hi as <-.
  eexists. split; [exact Hrows|].
  assert (length pu = length ints) as Hlu.
  { apply (f_equal length) in Hpu. unfold series_map in Hpu.
    rewrite !length_fmap in Hpu. done. }
  assert (length pi = length ints) as Hli.
  { apply (f_equal length) in Hpi. unfold series_map in Hpi.
    rewrite !length_fmap in Hpi. done. }
  assert (∀ (col ps : list Z) (k : nat) x,
            Z.of_nat (length col) ≤ 2 ^ 31 →
            series_map (reverse_index (np_sort (np_unique col))) col = Some <$> ps →
            col !! k = Some x →
            ∃ p : nat, ps !! k = Some (Z.of_nat p) ∧ wrap32 (wrap32 (Z.of_nat p)) = Z.of_nat p ∧
                       np_sort (np_unique col) !! p = Some x) as Hpos.
  { intros col ps k x Hb Hmap Hk.
    apply (f_equal (.!! k)) in Hmap. unfold series_map in Hmap.
    rewrite !list_lookup_fmap, Hk in Hmap. cbn in Hmap.
    destruct (ps !! k) as [p|] eqn:Hp; [|done]. cbn in Hmap. injection Hmap as Hmap.
    apply reverse_index_Some in Hmap as [Hr Hx].
    pose proof (index_ids_length col) as Hlen.
    exists (Z.to_nat p). rewrite Z2Nat.id by lia. split_and!; [done| |done].
    assert (wrap32 p = p) as -> by (apply wrap32_small; int32_bounds; lia).
    apply wrap32_small. int32_bounds. lia. }
  split.
  - rewrite length_fmap, length_zip, !length_fmap. lia.
  - intros k u i Hk.
    destruct (Hpos (ints.*1) pu k u) as (p & Hp & Hwp & Hpu');
      [by rewrite length_fmap|done|by rewrite list_lookup_fmap, Hk|].
    destruct (Hpos (ints.*2) pi k i) as (q & Hq & Hwq & Hpi');
      [by rewrite length_fmap|done|by rewrite list_lookup_fmap, Hk|].
    exists p, q. split_and!; [|done..].
    rewrite list_lookup_fmap.
    erewrite (proj2 (lookup_zip_with_Some _ _ _ _ _)).
    2:{ eexists _, _. split; [reflexivity|].
        rewrite !list_lookup_fmap, Hp, Hq. done. }
    cbn. by rewrite Hwp, Hwq.
Qed.

End rows.

Lemma observed_sets_sorted_witness :
  ∃ rows d,
    interactions (data (self resumed)) = Some (IArray rows) ∧
    user_items_py (data (self resumed)) = Some d ∧
    user_items_nb (data (self resumed)) = Some d ∧
    ∀ u, (d !! u = None ↔ u ∉ rows.*1) ∧
         ∀ items, d !! u = Some items →
           items ≠ [] ∧ StronglySorted Z.le items ∧ items ≡ₚ items_of u rows.
Proof.
  apply (observed_sets_sorted [(7, 103)] None None 1 false fitted RetSelf resumed).
  left. by vm_compute.
Defined.

Lemma fit_stores_positions_witness :
  ∃ rows,
    interactions (data (self fitted)) = Some (IArray rows) ∧
    length rows = length log1 ∧
    ∀ (k : nat) u i, log1 !! k = Some (u, i) →
      ∃ p q : nat,
        rows !! k = Some (Z.of_nat p, Z.of_nat q) ∧
        np_sort (np_unique (log1.*1)) !! p = Some u ∧
        np_sort (np_unique (log1.*2)) !! q = Some i.
Proof.
  apply (fit_stores_positions log1 None None 1 false unfit RetNone fitted);
    by vm_compute.
Defined.

(** ** Feature tables *)

Lemma np_arange_sorted n : StronglySorted Z.le (np_arange n).
Proof.
  unfold np_arange. generalize 0%nat. induction n as [|n IH]; intros s; cbn.
  - constructor.
  - constructor; [apply IH|]. apply Forall_fmap, Forall_forall.
    intros y [Hy _]%elem_of_seq. cbn. lia.
Qed.

(** In a list without repeats every identifier is mapped to its own
    position. *)
Lemma positions_arange ids :
  NoDup ids →
  (λ id, default 0 (reverse_index ids !! id)) <$> ids = np_arange (length ids).
Proof.
  intros Hnd. apply list_eq. intros k. rewrite list_lookup_fmap.
  destruct (ids !! k) as [id|] eqn:Hk; cbn.
  - rewrite np_arange_lookup by (by eapply lookup_lt_Some).
    assert (reverse_index ids !! id = Some (Z.of_nat k)) as ->; [|done].
    apply reverse_index_inverse; eauto.
  - symmetry. apply lookup_ge_None_2. rewrite np_arange_length.
    by apply lookup_ge_None_1.
Qed.

Lemma series_map_known (m : gmap Z Z) col :
  Forall (λ k, is_Some (m !! k)) col →
  series_map m col = Some <$> ((λ id, default 0 (m !! id)) <$> col).
Proof.
  intros H. unfold series_map. rewrite <- list_fmap_compose.
  apply Forall_fmap_ext_1. eapply Forall_impl; [exact H|].
  intros k [p Hp]. cbn. by rewrite Hp.
Qed.

Lemma mapM_id_Some {A} (l : list A) : mapM id (Some <$> l) = Some l.
Proof. apply mapM_Some. induction l; constructor; auto. Qed.

Lemma covers_known ids t :
  covers ids t → Forall (λ k, is_Some (reverse_index ids !! k)) (ft_rows t).*1.
Proof.
  intros Hc. apply Forall_forall. intros k Hk. apply reverse_index_is_Some.
  by rewrite <- Hc.
Qed.

(** The labels of a covering table, mapped and sorted, are the positions
    of the index. *)
Lemma covers_sorted_positions ids t :
  NoDup ids → covers ids t →
  merge_sort Z.le ((λ id, default 0 (reverse_index ids !! id)) <$> (ft_rows t).*1)
  = np_arange (length ids).
Proof.
  intros Hnd Hc. apply (StronglySorted_unique Z.le).
  - apply StronglySorted_merge_sort; apply _.
  - apply np_arange_sorted.
  - rewrite merge_sort_Permutation, <- positions_arange by done.
    unfold covers in Hc. by rewrite Hc.
Qed.

(** The test of [_init_features] accepts every table that covers the
    index, as long as the positions fit [int32]. *)
Lemma array_equal_sorted_of_covers ids t :
  NoDup ids → Z.of_nat (length ids) ≤ 2 ^ 31 → covers ids t →
  array_equal_sorted (series_map (reverse_index ids) (ft_rows t).*1)
                     (Some (wrap32 <$> np_arange (length ids))) = true.
Proof.
  intros Hnd Hb Hc. unfold array_equal_sorted.
  rewrite series_map_known by (by apply covers_known).
  rewrite mapM_id_Some, wrap32_arange by done.
  apply bool_decide_eq_true_2. by apply covers_sorted_positions.
Qed.

Lemma label_le_transitive : Transitive label_le.
Proof. intros a b c. unfold label_le. lia. Qed.

Lemma label_le_total : Total label_le.
Proof. intros a b. unfold label_le. lia. Qed.

Lemma relabel_known (m : gmap Z Z) t :
  Forall (λ k, is_Some (m !! k)) (ft_rows t).*1 →
  relabel m t = (λ r, (default 0 (m !! r.1), r.2)) <$> ft_rows t.
Proof.
  unfold relabel. induction (ft_rows t) as [|r l IH]; [done|].
  intros [[p Hp] Hl]%Forall_cons. cbn. rewrite Hp. cbn. by rewrite IH.
Qed.

Lemma sorted_labels (l : list (Z * list spec_float)) :
  StronglySorted label_le l → StronglySorted Z.le (l.*1).
Proof.
  induction 1 as [|a l Hl IH Ha]; cbn; constructor; [done|].
  apply Forall_fmap. eapply Forall_impl; [exact Ha|]. done.
Qed.

(** The array stored for an accepted table is row-ordered by index
    position: row [k] holds the features of the identifier at position [k],
    cast to [float32]. *)
Lemma sorted_features_rows ids t :
  NoDup ids → covers ids t →
  nd_cols (sorted_features (reverse_index ids) t) = ft_cols t ∧
  length (nd_rows (sorted_features (reverse_index ids) t)) = length ids ∧
  ∀ (k : nat) id feats,
    ids !! k = Some id → (id, feats) ∈ ft_rows t →
    nd_rows (sorted_features (reverse_index ids) t) !! k = Some (astype_float32 <$> feats).
Proof.
  intros Hnd Hc. pose proof (covers_known ids t Hc) as Hknown.
  unfold sorted_features. cbn [nd_cols nd_rows nd_astype_float32].
  rewrite relabel_known by done.
  set (L := (λ r : Z * list spec_float, (default 0 (reverse_index ids !! r.1), r.2))
              <$> ft_rows t).
  set (S := merge_sort label_le L).
  assert (S ≡ₚ L) as HSL by apply merge_sort_Permutation.
  assert (S.*1 = np_arange (length ids)) as Hlabels.
  { apply (StronglySorted_unique Z.le).
    - apply sorted_labels.
      apply (@StronglySorted_merge_sort _ label_le _ label_le_transitive label_le_total).
    - apply np_arange_sorted.
    - rewrite HSL. unfold L. rewrite <- list_fmap_compose.
      rewrite <- (covers_sorted_positions ids t Hnd Hc), merge_sort_Permutation.
      by rewrite <- list_fmap_compose. }
  assert (length S = length ids) as Hlen.
  { apply (f_equal length) in Hlabels. by rewrite length_fmap, np_arange_length in Hlabels. }
  split; [done|]. split; [by rewrite !length_fmap|].
  intros k id feats Hk Hin.
  assert (NoDup (ft_rows t).*1) as Hndl by (unfold covers in Hc; by rewrite Hc).
  destruct (S !! k) as [[p f]|] eqn:HS.
  2:{ apply lookup_ge_None_1 in HS. apply lookup_lt_Some in Hk. lia. }
  assert (p = Z.of_nat k) as ->.
  { apply (f_equal (.!! k)) in Hlabels.
    rewrite list_lookup_fmap, HS, np_arange_lookup in Hlabels
      by (by eapply lookup_lt_Some).
    by injection Hlabels. }
  assert ((Z.of_nat k, f) ∈ L) as HinL.
  { rewrite <- HSL. by eapply list_elem_of_lookup_2. }
  apply list_elem_of_fmap in HinL as ([id' f'] & [= Hp ->] & Hin'). cbn in Hp.
  assert (id' = id) as ->.
  { assert (id' ∈ (ft_rows t).*1) as Hid'.
    { apply list_elem_of_fmap. by exists (id', f'). }
    rewrite Forall_forall in Hknown. destruct (Hknown id' Hid') as [p Hp'].
    rewrite Hp' in Hp. cbn in Hp. subst p.
    apply reverse_index_inverse in Hp' as (k' & Hkk & Hk'); [|done].
    apply Nat2Z.inj in Hkk as <-. congruence. }
  assert (f' = feats) as ->.
  { pose proof (elem_of_list_to_map_1 (M := gmap Z) _ _ _ Hndl Hin) as H1.
    pose proof (elem_of_list_to_map_1 (M := gmap Z) _ _ _ Hndl Hin') as H2.
    congruence. }
  rewrite !list_lookup_fmap, HS. done.
Qed.

Section features.
Context {rng : Type} `{E : !Engine rng}.
Implicit Types w : world rng.

(** A successful [_init_features] on an indexed model: the tables cover
    the index and the two matrices are stored. *)
Lemma init_features_ok_inv users items uf itf w w' :
  indexed_by users items (self w) →
  _init_features uf itf w = (inr (), w') →
  x_uf (data (self w')) = Some (feature_matrix users uf) ∧
  x_if (data (self w')) = Some (feature_matrix items itf) ∧
  (∀ t, uf = Some t → covers users t) ∧ (∀ t, itf = Some t → covers items t).
Proof.
  intros Hix H. pose proof (init_features_ok_covers users items uf itf w w' Hix H) as Hc.
  destruct Hix as (_ & _ & Hu & Hi & Hux & Hix).
  split_and!; [| |apply Hc..].
  - unfold _init_features in H. destruct uf, itf; run H; simplify_eq; cbn;
      rewrite ?length_fmap, ?np_arange_length; reflexivity.
  - unfold _init_features in H. destruct uf, itf; run H; simplify_eq; cbn;
      rewrite ?length_fmap, ?np_arange_length; reflexivity.
Qed.

(** [_init_features] accepts tables that cover the index. *)
Lemma init_features_ok users items uf itf w :
  indexed_by users items (self w) →
  NoDup users → NoDup items →
  Z.of_nat (length users) ≤ 2 ^ 31 → Z.of_nat (length items) ≤ 2 ^ 31 →
  ¬ schema_mismatch users items uf itf →
  ∃ w', _init_features uf itf w = (inr (), w').
Proof.
  intros Hix Hndu Hndi Hbu Hbi Hok.
  destruct (_init_features uf itf w) as [[e|[]] w'] eqn:H; [|eauto].
  exfalso. destruct Hix as (_ & _ & Hu & Hi & Hux & Hix).
  assert (∀ t, uf = Some t → covers users t) as Hcu.
  { intros t ->. destruct (decide ((ft_rows t).*1 ≡ₚ users)) as [|Hn]; [done|].
    destruct Hok. left. eauto. }
  assert (∀ t, itf = Some t → covers items t) as Hci.
  { intros t ->. destruct (decide ((ft_rows t).*1 ≡ₚ items)) as [|Hn]; [done|].
    destruct Hok. right. eauto. }
  unfold _init_features in H. destruct uf as [tu|], itf as [ti|]; run H; simplify_eq.
  all: repeat match goal with
       | Hr : context [array_equal_sorted _ (user_idx _)] |- _ => rewrite Hux in Hr
       | Hr : context [array_equal_sorted _ (item_idx _)] |- _ => rewrite Hix in Hr
       end.
  all: match goal with
       | Hr : array_equal_sorted _ _ = false |- _ =>
           rewrite array_equal_sorted_of_covers in Hr by auto; discriminate
       end.
Qed.

Lemma fit_partial_returns_self_aux epochs verbose w r w' :
  train epochs verbose w = (inr r, w') → r = RetSelf.
Proof.
  unfold train, current_arrays. intros H. run H.
  unfold mret, M_ret in H. by injection H as <- _.
Qed.

(** [_init_weights] returns whenever the index and the feature matrices
    are in place, and leaves every weight array assigned. *)
Lemma init_weights_ok uf itf w :
  is_Some (user_idx (index (self w))) → is_Some (item_idx (index (self w))) →
  is_Some (x_uf (data (self w))) → is_Some (x_if (data (self w))) →
  ∃ w', _init_weights uf itf w = (inr (), w') ∧
        is_Some (w_i (store (self w'))) ∧ is_Some (w_if (store (self w'))) ∧
        is_Some (v_u (store (self w'))) ∧ is_Some (v_i (store (self w'))) ∧
        is_Some (v_uf (store (self w'))) ∧ is_Some (v_if (store (self w'))).
Proof.
  intros [us Hus] [its Hits] [xuf Hxuf] [xif Hxif].
  destruct (_init_weights uf itf w) as [[e|[]] w'] eqn:H;
    unfold _init_weights in H; destruct uf, itf; run H; simplify_eq.
  all: eexists; split; [reflexivity|]; cbn; split_and!; eauto.
Qed.

(** The trainer half returns whenever every attribute it reads holds a
    value. *)
Lemma train_ok epochs verbose w :
  is_Some (interactions_array (self w)) → is_Some (user_items_nb (data (self w))) →
  is_Some (item_idx (index (self w))) →
  is_Some (x_uf (data (self w))) → is_Some (x_if (data (self w))) →
  is_Some (w_i (store (self w))) → is_Some (w_if (store (self w))) →
  is_Some (v_u (store (self w))) → is_Some (v_i (store (self w))) →
  is_Some (v_uf (store (self w))) → is_Some (v_if (store (self w))) →
  ∃ w', train epochs verbose w = (inr RetSelf, w') ∧ is_fit (self w') = true.
Proof.
  intros [? H1] [? H2] [? H3] [? H4] [? H5] [? H6] [? H7] [? H8] [? H9] [? H10] [? H11].
  destruct (train epochs verbose w) as [[e|r] w'] eqn:H;
    unfold train, current_arrays in H; run H; unfold mret, M_ret in *; simplify_eq.
  eexists; split; [reflexivity|]; done.
Qed.

Lemma fresh_index_indexed_by ints (s : RankFM) :
  index s = fresh_index ints →
  indexed_by (np_sort (np_unique (ints.*1))) (np_sort (np_unique (ints.*2))) s.
Proof. intros H. unfold indexed_by. rewrite H. cbn. done. Qed.

Lemma prepare_unfit ints uf itf w :
  is_fit (self w) = false → prepare ints uf itf w = _init_all ints uf itf w.
Proof. intros H. unfold prepare. rewrite bind_run. unfold gets. by rewrite H. Qed.

(** The stages of a successful [fit]. *)
Lemma fit_ok_stages ints uf itf epochs verbose w r w' :
  fit ints uf itf epochs verbose w = (inr r, w') →
  ∃ wa wb wc wd,
    index (self wa) = fresh_index ints ∧
    _init_interactions ints wa = (inr (), wb) ∧
    _init_features uf itf wb = (inr (), wc) ∧
    _init_weights uf itf wc = (inr (), wd) ∧
    train epochs verbose wd = (inr RetSelf, w') ∧
    hyper (self wa) = hyper (self w) ∧ np_random wa = np_random w ∧
    engine_calls wa = engine_calls w.
Proof.
  intros [r' H]%fit_inv. rewrite fit_partial_split in H.
  apply bind_inv_ok in H as ([] & wd & Hprep & Htrain).
  assert (r' = RetSelf) as -> by (by eapply fit_partial_returns_self_aux).
  rewrite prepare_unfit, init_all_eq in Hprep by reflexivity.
  apply bind_inv_ok in Hprep as ([] & wb & Hb & Hprep).
  apply bind_inv_ok in Hprep as ([] & wc & Hc & Hd).
  exists (World (with_index (λ _, fresh_index ints) (_reset_state (self w)))
                (np_random w) (engine_calls w)), wb, wc, wd.
  split_and!; [reflexivity|exact Hb|exact Hc|exact Hd|exact Htrain|reflexivity..].
Qed.

(** X11.  After a successful [fit] the two feature matrices have one row per
    index position; for a table that was passed, the matrix has the
    table's columns and row [k] holds the features of the identifier at
    position [k] of the index, cast to [float32], whatever the order of
    the table's rows. *)
Theorem fit_stores_features_in_index_order ints uf itf epochs verbose w r w' :
  fit ints uf itf epochs verbose w = (inr r, w') →
  ∃ xuf xif,
    x_uf (data (self w')) = Some xuf ∧ x_if (data (self w')) = Some xif ∧
    (∀ t, uf = Some t →
       nd_cols xuf = ft_cols t ∧
       length (nd_rows xuf) = length (np_sort (np_unique (ints.*1))) ∧
       ∀ (k : nat) id feats,
         np_sort (np_unique (ints.*1)) !! k = Some id → (id, feats) ∈ ft_rows t →
         nd_rows xuf !! k = Some (astype_float32 <$> feats)) ∧
    (∀ t, itf = Some t →
       nd_cols xif = ft_cols t ∧
       length (nd_rows xif) = length (np_sort (np_unique (ints.*2))) ∧
       ∀ (k : nat) id feats,
         np_sort (np_unique (ints.*2)) !! k = Some id → (id, feats) ∈ ft_rows t →
         nd_rows xif !! k = Some (astype_float32 <$> feats)).
Proof.
  intros (wa & wb & wc & wd & Hix & Ha & Hb & Hc & Hd & _)%fit_ok_stages.
  pose proof (init_interactions_keeps ints wa) as Ka.
  rewrite Ha in Ka. cbn in Ka. injection Ka as _ Ka _ _ _ _ _ _.
  assert (indexed_by (np_sort (np_unique (ints.*1))) (np_sort (np_unique (ints.*2)))
                     (self wb)) as Hind.
  { apply fresh_index_indexed_by. congruence. }
  apply (init_features_ok_inv _ _ _ _ _ _ Hind) in Hb as (Hxuf & Hxif & Hcu & Hci).
  pose proof (init_weights_keeps uf itf wc) as Kc.
  rewrite Hc in Kc. cbn in Kc. injection Kc as _ _ Kc _ _.
  apply train_ok_inv in Hd as (fa & _ & _ & _ & ->).
  cbn [self data set_is_fit with_store]. rewrite Kc.
  eexists _, _. split_and!; [exact Hxuf|exact Hxif| |].
  - intros t ->. cbn [feature_matrix].
    apply sorted_features_rows; [apply index_ids_NoDup|by apply Hcu].
  - intros t ->. cbn [feature_matrix].
    apply sorted_features_rows; [apply index_ids_NoDup|by apply Hci].
Qed.

(** X12.  [fit] on at most 2^31 interactions returns exactly when every feature
    table that is passed lists each distinct user (item) of the
    interactions once and nothing else; the model is then fit. *)
Theorem fit_returns_iff_features_cover ints uf itf epochs verbose w :
  Z.of_nat (length ints) ≤ 2 ^ 31 →
  (∃ w', fit ints uf itf epochs verbose w = (inr RetNone, w') ∧ is_fit (self w') = true) ↔
  ¬ schema_mismatch (np_sort (np_unique (ints.*1))) (np_sort (np_unique (ints.*2))) uf itf.
Proof.
  intros Hbound. split.
  - intros (w' & (wa & wb & wc & wd & Hix & Ha & Hb & _)%fit_ok_stages & _).
    pose proof (init_interactions_keeps ints wa) as Ka.
    rewrite Ha in Ka. cbn in Ka. injection Ka as _ Ka _ _ _ _ _ _.
    assert (indexed_by (np_sort (np_unique (ints.*1))) (np_sort (np_unique (ints.*2)))
                       (self wb)) as Hind.
    { apply fresh_index_indexed_by. congruence. }
    apply (init_features_ok_covers _ _ _ _ _ _ Hind) in Hb as [Hcu Hci].
    intros [(t & -> & Hn) | (t & -> & Hn)]; [by apply Hn, Hcu|by apply Hn, Hci].
  - intros Hok.
    set (wa := World (with_index (λ _, fresh_index ints) (_reset_state (self w)))
                     (np_random w) (engine_calls w)).
    destruct (init_interactions_fresh ints wa) as [wb Ha]; [reflexivity..|].
    pose proof (init_interactions_keeps ints wa) as Ka.
    rewrite Ha in Ka. cbn [snd] in Ka.
    assert (index (self wb) = fresh_index ints) as Kix by (by injection Ka).
    clear Ka.
    assert (indexed_by (np_sort (np_unique (ints.*1))) (np_sort (np_unique (ints.*2)))
                       (self wb)) as Hind by (by apply fresh_index_indexed_by).
    pose proof (index_ids_length (ints.*1)) as Hlu.
    pose proof (index_ids_length (ints.*2)) as Hli.
    rewrite length_fmap in Hlu, Hli.
    destruct (init_features_ok _ _ uf itf wb Hind) as [wc Hb];
      [apply index_ids_NoDup..|lia|lia|done|].
    pose proof (init_features_ok_inv _ _ _ _ _ _ Hind Hb) as (Hxuf & Hxif & _).
    pose proof (init_features_keeps uf itf wb) as Kb.
    rewrite Hb in Kb. cbn [snd] in Kb. injection Kb as _ Kbix _ _ Kbi _ Kbnb _ _.
    pose proof (init_interactions_ok _ _ _ Ha)
      as (? & ? & pu & pi & _ & _ & _ & _ & _ & Hrows & _ & Hnb).
    destruct (init_weights_ok uf itf wc) as (wd & Hc & W1 & W2 & W3 & W4 & W5 & W6).
    { rewrite Kbix, Kix. by eexists. }
    { rewrite Kbix, Kix. by eexists. }
    { by eexists. }
    { by eexists. }
    pose proof (init_weights_keeps uf itf wc) as Kc.
    rewrite Hc in Kc. cbn [snd] in Kc. injection Kc as _ Kcix Kcd _ _.
    destruct (train_ok epochs verbose wd) as (w' & Hd & Hfit); try done.
    { unfold interactions_array. rewrite Kcd, Kbi, Hrows. by eexists. }
    { rewrite Kcd, Kbnb, Hnb. by eexists. }
    { rewrite Kcix, Kbix, Kix. by eexists. }
    { rewrite Kcd, Hxuf. by eexists. }
    { rewrite Kcd, Hxif. by eexists. }
    exists w'. split; [|done].
    rewrite fit_eq, bind_run. unfold assign at 1. rewrite bind_run.
    rewrite fit_partial_split, bind_run, prepare_unfit, init_all_eq by reflexivity.
    fold wa. erewrite bind_ok; [|exact Ha]. erewrite bind_ok; [|exact Hb].
    rewrite Hc, Hd. reflexivity.
Qed.

End features.

Lemma fit_stores_features_in_index_order_witness :
  ∃ xuf xif,
    x_uf (data (self (fit log1 (Some table1) None 1 false unfit).2)) = Some xuf ∧
    x_if (data (self (fit log1 (Some table1) None 1 false unfit).2)) = Some xif ∧
    (∀ t, Some table1 = Some t →
       nd_cols xuf = ft_cols t ∧
       length (nd_rows xuf) = length (np_sort (np_unique (log1.*1))) ∧
       ∀ (k : nat) id feats,
         np_sort (np_unique (log1.*1)) !! k = Some id → (id, feats) ∈ ft_rows t →
         nd_rows xuf !! k = Some (astype_float32 <$> feats)) ∧
    (∀ t, None = Some t →
       nd_cols xif = ft_cols t ∧
       length (nd_rows xif) = length (np_sort (np_unique (log1.*2))) ∧
       ∀ (k : nat) id feats,
         np_sort (np_unique (log1.*2)) !! k = Some id → (id, feats) ∈ ft_rows t →
         nd_rows xif !! k = Some (astype_float32 <$> feats)).
Proof.
  apply (fit_stores_features_in_index_order log1 (Some table1) None 1 false unfit RetNone).
  by vm_compute.
Defined.

Lemma fit_returns_iff_features_cover_witness :
  (∃ w', fit log1 (Some table1) None 1 false unfit = (inr RetNone, w') ∧
         is_fit (self w') = true) ↔
  ¬ schema_mismatch (np_sort (np_unique (log1.*1))) (np_sort (np_unique (log1.*2)))
      (Some table1) None.
Proof.
  apply (fit_returns_iff_features_cover log1 (Some table1) None 1 false unfit).
  by vm_compute.
Defined.

(** ** The arguments of the trainer *)

Section trainer.
Context {rng : Type} `{E : !Engine rng}.
Implicit Types w : world rng.

(** A draw of [np.random.normal(size=(n, m))] cast to [float32] has shape
    [(n, m)]. *)
Lemma random_normal_shape loc scale n m w a w' :
  random_normal loc scale n m w = (inr a, w') → has_shape a n m.
Proof.
  unfold random_normal. pose proof (normal_rows_shape loc scale n m (np_random w)) as [H1 H2].
  destruct (normal_rows loc scale n m (np_random w)) as [rs g]. intros [= <- _].
  by apply astype_float32_shape.
Qed.

(** The weights [_init_weights] leaves: zeros for the item and
    item-feature weights, factor matrices shaped by the index, the feature
    matrices and [factors], and zeros for the feature factors of a side
    without a table. *)
Lemma init_weights_shapes uf itf w w' us its xuf xif :
  user_idx (index (self w)) = Some us → item_idx (index (self w)) = Some its →
  x_uf (data (self w)) = Some xuf → x_if (data (self w)) = Some xif →
  _init_weights uf itf w = (inr (), w') →
  ∃ ws, store (self w') = store_of ws ∧
    a_w_i ws = np_zeros (length its) ∧ a_w_if ws = np_zeros (nd_cols xif) ∧
    has_shape (a_v_u ws) (length us) (Z.to_nat (factors (hyper (self w)))) ∧
    has_shape (a_v_i ws) (length its) (Z.to_nat (factors (hyper (self w)))) ∧
    has_shape (a_v_uf ws) (nd_cols xuf) (Z.to_nat (factors (hyper (self w)))) ∧
    has_shape (a_v_if ws) (nd_cols xif) (Z.to_nat (factors (hyper (self w)))) ∧
    (uf = None → a_v_uf ws = np_zeros2 (nd_cols xuf) (Z.to_nat (factors (hyper (self w))))) ∧
    (itf = None → a_v_if ws = np_zeros2 (nd_cols xif) (Z.to_nat (factors (hyper (self w))))).
Proof.
  intros Hus Hits Hxuf Hxif H. unfold _init_weights in H.
  destruct uf, itf; run H; simplify_eq.
  all: eexists (Arrays _ _ _ _ _ _); split; [reflexivity|].
  all: cbn [a_w_i a_w_if a_v_u a_v_i a_v_uf a_v_if].
  all: repeat match goal with
       | |- context [Ndarray2 (nd_cols ?a) (vec_astype_float32 <$> nd_rows ?a)] =>
           change (Ndarray2 (nd_cols a) (vec_astype_float32 <$> nd_rows a))
             with (nd_astype_float32 a)
       end.
  all: rewrite ?vec_astype_float32_zeros, ?nd_astype_float32_zeros.
  all: split_and!; try done; try apply np_zeros2_shape.
  all: match goal with
       | Hr : normal_rows ?l ?s ?n ?m ?g = (?rs, _) |- has_shape _ ?n ?m =>
           let H1 := fresh in
           let H2 := fresh in
           pose proof (normal_rows_shape l s n m g) as [H1 H2];
           rewrite Hr in H1, H2; apply (astype_float32_shape m rs); done
       end.
Qed.

(** What the trainer half hands to the engine. *)
Lemma train_args epochs verbose w r w' :
  train epochs verbose w = (inr r, w') →
  ∃ fa,
    engine_calls w' = engine_calls w ++ [CallFit fa] ∧
    interactions_array (self w) = Some (fa_interactions fa) ∧
    user_items_nb (data (self w)) = Some (fa_user_items fa) ∧
    item_idx (index (self w)) = Some (fa_item_idx fa) ∧
    x_uf (data (self w)) = Some (fa_x_uf fa) ∧
    x_if (data (self w)) = Some (fa_x_if fa) ∧
    store (self w) = store_of (fa_weights fa) ∧
    fa_regularization fa = regularization (hyper (self w)) ∧
    fa_learning_rate fa = learning_rate (hyper (self w)) ∧
    fa_learning_schedule fa = learning_schedule (hyper (self w)) ∧
    fa_learning_exponent fa = learning_exponent (hyper (self w)) ∧
    fa_epochs fa = epochs ∧ fa_verbose fa = verbose.
Proof.
  unfold train, current_arrays. intros H. run H.
  unfold mret, M_ret in H. injection H as _ <-.
  match goal with Hf : _fit ?a _ = _ |- _ => exists a end.
  cbn. split_and!; try done. symmetry. by apply store_of_current.
Qed.

(** X13.  A successful [fit] calls the trainer once, with the hyperparameters of
    the model, the epochs and verbosity given, the item positions, the two
    feature matrices, all-zero item and item-feature weights, and factor
    matrices whose shapes agree with the index, the feature matrices and
    [factors]; the feature factors of a side without a table are zero. *)
Theorem fit_calls_trainer_with_consistent_arrays ints uf itf epochs verbose w r w' :
  fit ints uf itf epochs verbose w = (inr r, w') →
  ∃ fa,
    engine_calls w' = engine_calls w ++ [CallFit fa] ∧
    fa_regularization fa = regularization (hyper (self w)) ∧
    fa_learning_rate fa = learning_rate (hyper (self w)) ∧
    fa_learning_schedule fa = learning_schedule (hyper (self w)) ∧
    fa_learning_exponent fa = learning_exponent (hyper (self w)) ∧
    fa_epochs fa = epochs ∧ fa_verbose fa = verbose ∧
    fa_item_idx fa = wrap32 <$> np_arange (length (np_sort (np_unique (ints.*2)))) ∧
    fa_x_uf fa = feature_matrix (np_sort (np_unique (ints.*1))) uf ∧
    fa_x_if fa = feature_matrix (np_sort (np_unique (ints.*2))) itf ∧
    a_w_i (fa_weights fa) = np_zeros (length (np_sort (np_unique (ints.*2)))) ∧
    a_w_if (fa_weights fa) = np_zeros (nd_cols (fa_x_if fa)) ∧
    has_shape (a_v_u (fa_weights fa)) (length (np_sort (np_unique (ints.*1))))
              (Z.to_nat (factors (hyper (self w)))) ∧
    has_shape (a_v_i (fa_weights fa)) (length (np_sort (np_unique (ints.*2))))
              (Z.to_nat (factors (hyper (self w)))) ∧
    has_shape (a_v_uf (fa_weights fa)) (nd_cols (fa_x_uf fa))
              (Z.to_nat (factors (hyper (self w)))) ∧
    has_shape (a_v_if (fa_weights fa)) (nd_cols (fa_x_if fa))
              (Z.to_nat (factors (hyper (self w)))) ∧
    (uf = None → a_v_uf (fa_weights fa) = np_zeros2 1 (Z.to_nat (factors (hyper (self w))))) ∧
    (itf = None → a_v_if (fa_weights fa) = np_zeros2 1 (Z.to_nat (factors (hyper (self w))))).
Proof.
  intros (wa & wb & wc & wd & Hix & Ha & Hb & Hc & Hd & Hh & _ & Hcalls)%fit_ok_stages.
  pose proof (init_interactions_keeps ints wa) as Ka.
  rewrite Ha in Ka. cbn [snd] in Ka. injection Ka as Kah Kai _ _ _ _ _ Kac.
  assert (indexed_by (np_sort (np_unique (ints.*1))) (np_sort (np_unique (ints.*2)))
                     (self wb)) as Hind.
  { apply fresh_index_indexed_by. congruence. }
  pose proof (init_features_ok_inv _ _ _ _ _ _ Hind Hb) as (Hxuf & Hxif & _).
  pose proof (init_features_keeps uf itf wb) as Kb.
  rewrite Hb in Kb. cbn [snd] in Kb. injection Kb as Kbh Kbi _ _ _ _ _ _ Kbc.
  pose proof (init_weights_keeps uf itf wc) as Kc.
  rewrite Hc in Kc. cbn [snd] in Kc. injection Kc as Kch Kci Kcd _ Kcc.
  destruct Hind as (_ & _ & _ & _ & Hus & Hits). rewrite <- Kbi in Hus, Hits.
  destruct (init_weights_shapes _ _ _ _ _ _ _ _ Hus Hits Hxuf Hxif Hc)
    as (ws & Hst & Hwi & Hwif & Svu & Svi & Svuf & Svif & Zuf & Zif).
  apply train_args in Hd
    as (fa & Hcall & _ & _ & Hidx & Hfu & Hfi & Hfw & Hp1 & Hp2 & Hp3 & Hp4 & Hp5 & Hp6).
  rewrite Kcd in Hfu, Hfi. rewrite Hxuf in Hfu. rewrite Hxif in Hfi.
  injection Hfu as Hfu. injection Hfi as Hfi.
  rewrite Kci, Hits in Hidx. injection Hidx as Hidx.
  assert (fa_weights fa = ws) as Hws.
  { rewrite Hst in Hfw. destruct ws, (fa_weights fa). by injection Hfw as -> -> -> -> -> ->. }
  assert (hyper (self wd) = hyper (self w)) as Khd by congruence.
  assert (hyper (self wc) = hyper (self w)) as Khc by congruence.
  rewrite !length_fmap, !np_arange_length in *.
  exists fa. rewrite Hws, <- Hfu, <- Hfi, <- Hidx, Hp1, Hp2, Hp3, Hp4, Khd, <- Khc.
  split_and!; try done.
  - congruence.
  - intros ->. by apply Zuf.
  - intros ->. by apply Zif.
Qed.

End trainer.

Lemma fit_calls_trainer_with_consistent_arrays_witness :
  ∃ fa,
    engine_calls (fit log1 (Some table1) None 3 true unfit).2
      = engine_calls unfit ++ [CallFit fa] ∧
    fa_regularization fa = regularization (hyper (self unfit)) ∧
    fa_learning_rate fa = learning_rate (hyper (self unfit)) ∧
    fa_learning_schedule fa = learning_schedule (hyper (self unfit)) ∧
    fa_learning_exponent fa = learning_exponent (hyper (self unfit)) ∧
    fa_epochs fa = 3 ∧ fa_verbose fa = true ∧
    fa_item_idx fa = wrap32 <$> np_arange (length (np_sort (np_unique (log1.*2)))) ∧
    fa_x_uf fa = feature_matrix (np_sort (np_unique (log1.*1))) (Some table1) ∧
    fa_x_if fa = feature_matrix (np_sort (np_unique (log1.*2))) None ∧
    a_w_i (fa_weights fa) = np_zeros (length (np_sort (np_unique (log1.*2)))) ∧
    a_w_if (fa_weights fa) = np_zeros (nd_cols (fa_x_if fa)) ∧
    has_shape (a_v_u (fa_weights fa)) (length (np_sort (np_unique (log1.*1))))
              (Z.to_nat (factors (hyper (self unfit)))) ∧
    has_shape (a_v_i (fa_weights fa)) (length (np_sort (np_unique (log1.*2))))
              (Z.to_nat (factors (hyper (self unfit)))) ∧
    has_shape (a_v_uf (fa_weights fa)) (nd_cols (fa_x_uf fa))
              (Z.to_nat (factors (hyper (self unfit)))) ∧
    has_shape (a_v_if (fa_weights fa)) (nd_cols (fa_x_if fa))
              (Z.to_nat (factors (hyper (self unfit)))) ∧
    (Some table1 = None →
       a_v_uf (fa_weights fa) = np_zeros2 1 (Z.to_nat (factors (hyper (self unfit))))) ∧
    (@None feature_table = None →
       a_v_if (fa_weights fa) = np_zeros2 1 (Z.to_nat (factors (hyper (self unfit))))).
Proof.
  apply (fit_calls_trainer_with_consistent_arrays log1 (Some table1) None 3 true unfit RetNone).
  by vm_compute.
Defined.

(** ** Resuming after a fit *)

Section resume.
Context {rng : Type} `{E : !Engine rng}.
Implicit Types w : world rng.

Lemma series_map_all_known (m : gmap Z Z) col raw :
  series_map m col = Some <$> raw → Forall (λ k, is_Some (m !! k)) col.
Proof.
  intros H. apply Forall_forall. intros k Hk.
  assert (m !! k ∈ series_map m col) as Hin.
  { unfold series_map. apply list_elem_of_fmap. by exists k. }
  rewrite H in Hin. apply list_elem_of_fmap in Hin as (p & -> & _). by eexists.
Qed.

(** [_init_interactions] returns when every identifier is in the index. *)
Lemma init_interactions_known ints w u2i i2i :
  user_to_index (index (self w)) = Some u2i →
  item_to_index (index (self w)) = Some i2i →
  Forall (λ k, is_Some (u2i !! k)) (ints.*1) →
  Forall (λ k, is_Some (i2i !! k)) (ints.*2) →
  ∃ w', _init_interactions ints w = (inr (), w').
Proof.
  intros Hu Hi Hku Hki.
  destruct (astype_int32_series_map u2i (ints.*1) Hku) as (us & Hus & _).
  destruct (astype_int32_series_map i2i (ints.*2) Hki) as (its & Hits & _).
  destruct (_init_interactions ints w) as [[e|[]] w'] eqn:H; [|eauto].
  unfold _init_interactions in H. run H; simplify_eq; congruence.
Qed.

Lemma known_in_index (col : list Z) k :
  is_Some (reverse_index (np_sort (np_unique col)) !! k) ↔ k ∈ col.
Proof.
  rewrite <- index_ids_elem. split.
  - intros [p [_ Hp]%reverse_index_Some]. by eapply list_elem_of_lookup_2.
  - apply reverse_index_is_Some.
Qed.

(** X14.  On the model a successful [fit] on at most 2^31 interactions leaves,
    [fit_partial] returns exactly when every user and item of the new
    interactions occurred in the fitted ones and every feature table that
    is passed lists each fitted user (item) once and nothing else. *)
Theorem fit_partial_after_fit_returns_iff ints uf itf epochs verbose w r w1
    ints2 uf2 itf2 epochs2 verbose2 :
  Z.of_nat (length ints) ≤ 2 ^ 31 →
  fit ints uf itf epochs verbose w = (inr r, w1) →
  (∃ w2, fit_partial ints2 uf2 itf2 epochs2 verbose2 w1 = (inr RetSelf, w2)) ↔
  Forall (λ p, p.1 ∈ ints.*1 ∧ p.2 ∈ ints.*2) ints2 ∧
  ¬ schema_mismatch (np_sort (np_unique (ints.*1))) (np_sort (np_unique (ints.*2)))
      uf2 itf2.
Proof.
  intros Hbound Hfit.
  pose proof (fit_ok_inv _ _ _ _ _ _ _ _ Hfit) as (_ & _ & _ & _ & Hix & _).
  apply fit_inv in Hfit as [r' Hfit].
  apply fit_partial_serving_state in Hfit
    as (fa & g & u2i & i2i & _ & _ & Hfit1 & Hst & Hu & Hi & _).
  rewrite Hix in Hu, Hi. cbn in Hu, Hi. injection Hu as <-. injection Hi as <-.
  assert (user_to_index (index (self w1))
            = Some (reverse_index (np_sort (np_unique (ints.*1))))) as Hu
    by (by rewrite Hix).
  assert (item_to_index (index (self w1))
            = Some (reverse_index (np_sort (np_unique (ints.*2))))) as Hi
    by (by rewrite Hix).
  assert (Forall (λ p, p.1 ∈ ints.*1 ∧ p.2 ∈ ints.*2) ints2 ↔
          Forall (λ k, is_Some (reverse_index (np_sort (np_unique (ints.*1))) !! k)) (ints2.*1) ∧
          Forall (λ k, is_Some (reverse_index (np_sort (np_unique (ints.*2))) !! k)) (ints2.*2))
    as ->.
  { rewrite !Forall_fmap, <- Forall_and. apply Forall_proper; [|done].
    intros p. cbn. by rewrite !known_in_index. }
  split.
  - intros [w2 H2]. apply fit_partial_inv in H2 as (wx & a & Hinit & _).
    rewrite Hfit1 in Hinit.
    apply bind_inv_ok in Hinit as ([] & wb & Ha & Hb).
    pose proof (init_interactions_keeps ints2 w1) as Ka.
    rewrite Ha in Ka. cbn [snd] in Ka. injection Ka as _ Kai _ _ _ _ _ _.
    apply init_interactions_ok in Ha
      as (u2i & i2i & pu & pi & Hu' & Hi' & Hpu & Hpi & _).
    simplify_eq. split; [split; by eapply series_map_all_known|].
    assert (indexed_by (np_sort (np_unique (ints.*1))) (np_sort (np_unique (ints.*2)))
                       (self wb)) as Hind.
    { apply fresh_index_indexed_by. congruence. }
    apply (init_features_ok_covers _ _ _ _ _ _ Hind) in Hb as [Hcu Hci].
    intros [(t & -> & Hn) | (t & -> & Hn)]; [by apply Hn, Hcu|by apply Hn, Hci].
  - intros [[Hku Hki] Hok].
    destruct (init_interactions_known ints2 w1 _ _ Hu Hi Hku Hki) as [wb Ha].
    pose proof (init_interactions_keeps ints2 w1) as Ka.
    rewrite Ha in Ka. cbn [snd] in Ka. injection Ka as _ Kai Kas _ _ _ _ _.
    assert (indexed_by (np_sort (np_unique (ints.*1))) (np_sort (np_unique (ints.*2)))
                       (self wb)) as Hind.
    { apply fresh_index_indexed_by. congruence. }
    pose proof (index_ids_length (ints.*1)) as Hlu.
    pose proof (index_ids_length (ints.*2)) as Hli.
    rewrite length_fmap in Hlu, Hli.
    destruct (init_features_ok _ _ uf2 itf2 wb Hind) as [wc Hb];
      [apply index_ids_NoDup..|lia|lia|done|].
    pose proof (init_features_ok_inv _ _ _ _ _ _ Hind Hb) as (Hxuf & Hxif & _).
    pose proof (init_features_keeps uf2 itf2 wb) as Kb.
    rewrite Hb in Kb. cbn [snd] in Kb. injection Kb as _ Kbix Kbs _ Kbi _ Kbnb _ _.
    pose proof (init_interactions_ok _ _ _ Ha)
      as (? & ? & pu & pi & _ & _ & _ & _ & _ & Hrows & _ & Hnb).
    destruct (train_ok epochs2 verbose2 wc) as (w2 & Hd & _).
    { unfold interactions_array. rewrite Kbi, Hrows. by eexists. }
    { rewrite Kbnb, Hnb. by eexists. }
    { rewrite Kbix, Kai, Hix. by eexists. }
    { by eexists. }
    { by eexists. }
    all: try (rewrite Kbs, Kas, Hst; by eexists).
    exists w2.
    rewrite fit_partial_split, bind_run. unfold prepare. rewrite bind_run.
    unfold gets. rewrite Hfit1. cbv iota beta.
    erewrite bind_ok; [|exact Ha]. rewrite Hb. exact Hd.
Qed.

End resume.

Lemma fit_partial_after_fit_returns_iff_witness :
  (∃ w2, fit_partial [(7, 103); (5, 100)] None None 1 false fitted = (inr RetSelf, w2)) ↔
  Forall (λ p, p.1 ∈ log1.*1 ∧ p.2 ∈ log1.*2) [(7, 103); (5, 100)] ∧
  ¬ schema_mismatch (np_sort (np_unique (log1.*1))) (np_sort (np_unique (log1.*2)))
      None None.
Proof.
  apply (fit_partial_after_fit_returns_iff log1 None None 1 false unfit RetNone fitted);
    by vm_compute.
Defined.

(** ** The similarity queries *)

Lemma pyexn_bind_inr {A B} (m : pyexn + A) (f : A → pyexn + B) b :
  m ≫= f = inr b → ∃ a, m = inr a ∧ f a = inr b.
Proof. destruct m as [e|a]; [discriminate|]. eauto. Qed.

Lemma fst_pd_series values : (pd_series values).*1 = np_arange (length values).
Proof. unfold pd_series. rewrite fst_zip; [done|]. by rewrite np_arange_length. Qed.

Lemma np_arange_NoDup n : NoDup (np_arange n).
Proof.
  unfold np_arange. apply NoDup_fmap_2; [|apply NoDup_seq].
  intros x y. apply Nat2Z.inj.
Qed.

Lemma fst_filter_label (s : list (Z * spec_float)) (label : Z) :
  (filter (λ r, r.1 ≠ label) s).*1 = filter (λ k, k ≠ label) (s.*1).
Proof.
  induction s as [|r s IH]; [done|]. rewrite fmap_cons, !filter_cons.
  destruct (decide (r.1 ≠ label)); rewrite ?fmap_cons, IH; done.
Qed.

Lemma slice_to_sublist {A} (n : Z) (l : list A) : slice_to n l `sublist_of` l.
Proof. unfold slice_to. case_bool_decide; apply sublist_take. Qed.

Lemma slice_to_length {A} (n : Z) (l : list A) :
  0 ≤ n → (length (slice_to n l) ≤ Z.to_nat n)%nat.
Proof.
  intros Hn. unfold slice_to. rewrite bool_decide_eq_true_2 by done.
  rewrite length_take. lia.
Qed.

Section similar.
Context `{N : !Numpy} {rng : Type} `{E : !Engine rng}.
Implicit Types w : world rng.

(** X2.  On a model that is not fit, the four queries raise [AssertionError]
    at once, whatever their arguments: [predict] and [recommend_for_users]
    without calling the engine or changing anything, [similar_items] and
    [similar_users] without printing. *)
Theorem queries_before_fit_raise pairs users n_items filter_previous cold_start id n w :
  is_fit (self w) = false →
  predict pairs cold_start w = (inl AssertionError, w) ∧
  recommend_for_users users n_items filter_previous cold_start w = (inl AssertionError, w) ∧
  similar_items (self w) id n = (inl (Exn AssertionError), []) ∧
  similar_users (self w) id n = (inl (Exn AssertionError), []).
Proof.
  intros Hfit. split_and!.
  - unfold predict. rewrite !bind_run. unfold gets. rewrite Hfit. cbn [py_assert].
    by rewrite !bind_run.
  - unfold recommend_for_users. rewrite !bind_run. unfold gets. rewrite Hfit.
    cbn [py_assert]. by rewrite !bind_run.
  - unfold similar_items. by rewrite Hfit.
  - unfold similar_users. by rewrite Hfit.
Qed.

(** X15.  After a successful [fit], [similar_items] for an item that is not in
    the interactions reports the identifier on the standard output and then
    raises [UnboundLocalError]: no result is returned.  So does
    [similar_users] for a user that is not in the interactions. *)
Theorem similar_unknown_identifier_raises ints uf itf epochs verbose w r w' id n :
  fit ints uf itf epochs verbose w = (inr r, w') →
  (id ∉ ints.*2 → similar_items (self w') id n = (inl UnboundLocalError, [id])) ∧
  (id ∉ ints.*1 → similar_users (self w') id n = (inl UnboundLocalError, [id])).
Proof.
  intros Hfit.
  pose proof (fit_ok_inv _ _ _ _ _ _ _ _ Hfit) as (_ & _ & _ & _ & Hix & _).
  apply fit_inv in Hfit as [r' Hfit].
  apply fit_partial_serving_state in Hfit as (_ & _ & _ & _ & _ & _ & Hfit1 & _).
  split; intros Hid.
  - unfold similar_items. rewrite Hfit1, Hix. cbn.
    by rewrite (proj2 (reverse_index_None _ _)) by (by rewrite index_ids_elem).
  - unfold similar_users. rewrite Hfit1, Hix. cbn.
    by rewrite (proj2 (reverse_index_None _ _)) by (by rewrite index_ids_elem).
Qed.

(** X16.  [similar_users] takes the factors of the search user from [v_i], the
    item factors: a user whose position is not below the number of rows of
    [v_i] gets [IndexError], and the user factors [v_u] are never read. *)
Theorem similar_users_reads_item_factors (s : RankFM) id n u2i p vi :
  is_fit s = true →
  user_to_index (index s) = Some u2i → u2i !! id = Some p →
  v_i (store s) = Some vi → Z.of_nat (length (nd_rows vi)) ≤ p →
  similar_users s id n = (inl IndexError, []) ∧
  ∀ vu id' n', similar_users (set_v_u vu s) id' n' = similar_users s id' n'.
Proof.
  intros Hfit Hu Hp Hvi Hrows. split; [|done].
  unfold similar_users. rewrite Hfit, Hu. cbn. rewrite Hp, Hvi. cbn.
  unfold np_getitem. rewrite bool_decide_eq_false_2 by lia.
  by rewrite bool_decide_eq_false_2 by lia.
Qed.

(** X17.  The series [similar_items] returns after a successful [fit], for a
    [sort_values] that rearranges: the search item is one of the
    interactions and is not in the series, the series holds at most
    [n_items] entries for a non-negative [n_items], every identifier in it
    is an item of the interactions, and no identifier is in it twice. *)
Theorem similar_items_result ints uf itf epochs verbose w r w' id n res out :
  (∀ l, sort_values_descending l ≡ₚ l) →
  fit ints uf itf epochs verbose w = (inr r, w') →
  similar_items (self w') id n = (inr res, out) →
  out = [] ∧ id ∈ ints.*2 ∧ (Some id ∉ res) ∧
  (0 ≤ n → (length res ≤ Z.to_nat n)%nat) ∧
  (∀ x, Some x ∈ res → x ∈ ints.*2) ∧
  (∀ (j k : nat) x, res !! j = Some (Some x) → res !! k = Some (Some x) → j = k).
Proof.
  intros Hsort Hfit.
  pose proof (fit_ok_inv _ _ _ _ _ _ _ _ Hfit) as (_ & _ & _ & _ & Hix & _).
  apply fit_inv in Hfit as [r' Hfit].
  apply fit_partial_serving_state in Hfit as (_ & _ & _ & _ & _ & _ & Hfit1 & _).
  unfold similar_items. rewrite Hfit1, Hix. cbn [negb fresh_index item_to_index
    index_to_item need].
  set (items := np_sort (np_unique (ints.*2))).
  destruct (reverse_index items !! id) as [p|] eqn:Hp; [|by intros [= ? ?]].
  intros [= H <-].
  apply reverse_index_inverse in Hp as (kp & -> & Hkp); [|apply index_ids_NoDup].
  repeat match type of H with
         | (_ ≫= _) = inr _ => apply pyexn_bind_inr in H as (? & ? & H)
         end.
  unfold mret, pyexn_ret in H. injection H as <-.
  match goal with Hd : series_drop (pd_series ?sc) _ = inr ?rest |- _ =>
    unfold series_drop in Hd; case_bool_decide; [|discriminate];
    injection Hd as <-; rename sc into scores
  end.
  set (top := slice_to n (sort_values_descending
                (filter (λ r : Z * spec_float, r.1 ≠ Z.of_nat kp) (pd_series scores)))).
  assert (NoDup (top.*1) ∧ Z.of_nat kp ∉ top.*1) as [Hnd Hnp].
  { assert (top.*1 `sublist_of` (sort_values_descending
              (filter (λ r : Z * spec_float, r.1 ≠ Z.of_nat kp) (pd_series scores))).*1)
      as Hsub.
    { apply fmap_sublist, slice_to_sublist. }
    assert ((sort_values_descending
               (filter (λ r : Z * spec_float, r.1 ≠ Z.of_nat kp) (pd_series scores))).*1
            ≡ₚ filter (λ k, k ≠ Z.of_nat kp) (np_arange (length scores))) as HS.
    { by rewrite Hsort, fst_filter_label, fst_pd_series. }
    split.
    - eapply sublist_NoDup; [|exact Hsub]. rewrite HS.
      apply NoDup_filter, np_arange_NoDup.
    - intros Hin. eapply elem_of_sublist in Hin; [|exact Hsub].
      rewrite HS in Hin. apply list_elem_of_filter in Hin as [Hne _]. done. }
  assert (∀ q x, item_at items (Some q) = Some x → 0 ≤ q ∧ items !! Z.to_nat q = Some x)
    as Hat.
  { intros q y. unfold item_at. cbn. case_bool_decide; [done|discriminate]. }
  split_and!.
  - done.
  - apply index_ids_elem. by eapply list_elem_of_lookup_2.
  - intros Hin. apply list_elem_of_fmap in Hin as (q & Hq & Hin).
    symmetry in Hq. apply Hat in Hq as [Hq0 Hq].
    pose proof (NoDup_lookup _ _ _ _ (index_ids_NoDup (ints.*2)) Hq Hkp) as Heq.
    apply Hnp. replace (Z.of_nat kp) with q by lia. done.
  - intros Hn. rewrite !length_fmap. by apply slice_to_length.
  - intros y Hin. apply list_elem_of_fmap in Hin as (q & Hq & _).
    symmetry in Hq. apply Hat in Hq as [_ Hq].
    apply index_ids_elem. by eapply list_elem_of_lookup_2.
  - intros j k y Hj Hk. rewrite list_lookup_fmap in Hj, Hk.
    destruct (top.*1 !! j) as [qj|] eqn:Hqj; [|done].
    destruct (top.*1 !! k) as [qk|] eqn:Hqk; [|done].
    cbn in Hj, Hk. injection Hj as Hj. injection Hk as Hk.
    apply Hat in Hj as [Hj0 Hj]. apply Hat in Hk as [Hk0 Hk].
    pose proof (NoDup_lookup _ _ _ _ (index_ids_NoDup (ints.*2)) Hj Hk) as Heq.
    assert (qj = qk) as -> by lia.
    by eapply NoDup_lookup.
Qed.

End similar.

Import PlainNumpy.

Lemma queries_before_fit_raise_witness :
  predict [(7, 100)] (PyStr "nan") unfit = (inl AssertionError, unfit) ∧
  recommend_for_users [7] 2 false (PyStr "nan") unfit = (inl AssertionError, unfit) ∧
  similar_items (self unfit) 100 2 = (inl (Exn AssertionError), []) ∧
  similar_users (self unfit) 100 2 = (inl (Exn AssertionError), []).
Proof. by apply queries_before_fit_raise. Defined.

Lemma similar_unknown_identifier_raises_witness :
  (55 ∉ log1.*2 → similar_items (self fitted) 55 2 = (inl UnboundLocalError, [55])) ∧
  (55 ∉ log1.*1 → similar_users (self fitted) 55 2 = (inl UnboundLocalError, [55])).
Proof.
  apply (similar_unknown_identifier_raises log1 None None 1 false unfit RetNone fitted).
  by vm_compute.
Defined.

Lemma similar_users_reads_item_factors_witness :
  similar_users (self (fit log2 None None 1 false unfit).2) 8 5 = (inl IndexError, []) ∧
  ∀ vu id' n',
    similar_users (set_v_u vu (self (fit log2 None None 1 false unfit).2)) id' n'
    = similar_users (self (fit log2 None None 1 false unfit).2) id' n'.
Proof.
  apply (similar_users_reads_item_factors
           (self (fit log2 None None 1 false unfit).2) 8 5 (reverse_index [7; 8]) 1
           (Ndarray2 2 [[S754_finite false 13421773 (-27);
                         S754_finite false 13421773 (-27)]]));
    by vm_compute.
Defined.

Lemma similar_items_result_witness :
  @nil Z = [] ∧ 100 ∈ log1.*2 ∧ (Some 100 ∉ [Some 103; Some 101]) ∧
  (0 ≤ 2 → (length [Some 103; Some 101] ≤ Z.to_nat 2)%nat) ∧
  (∀ x, Some x ∈ [Some 103; Some 101] → x ∈ log1.*2) ∧
  (∀ (j k : nat) x, [Some 103; Some 101] !! j = Some (Some x) →
                    [Some 103; Some 101] !! k = Some (Some x) → j = k).
Proof.
  apply (similar_items_result log1 None None 1 false unfit RetNone fitted 100 2).
  - intros l. apply merge_sort_Permutation.
  - by vm_compute.
  - by vm_compute.
Defined.
